(** * MarkdownParser (parseclass.js): a shallow embedding and its properties

    The JavaScript source is one closure holding the tables [INLINE],
    [SANITIZE_REPLACEMENTS], [BLOCK] and [BLOCK_MATCHERS], the helpers
    [escapeHTMLChars], [wrapWithTag], [isEmpty] and [getBlockInfo], and the two
    methods [reset] and [parseMarkdown].  Both methods are arrow functions, so
    [this.state] is one object shared by every call; it is threaded explicitly
    here.

    A JavaScript string is a sequence of UTF-16 code units; it is modelled as a
    list of code units ([N]).  The few built-ins the source calls ([trim],
    [substring], [indexOf], [replace], [repeat], [split], [match], [matchAll])
    are written out in module [JS] and module [Regex]. *)

From Stdlib Require Import ZArith NArith List String Ascii Bool Lia.
From stdpp Require Import base option list gmap.
Import ListNotations.

Local Open Scope Z_scope.

(** ** Outcomes of JavaScript code: a value, a thrown exception, or a loop that
    did not finish within its fuel. *)

Inductive exn : Type := TypeError | RangeError.

Inductive res (A : Type) : Type :=
| Ret (a : A)
| Throw (e : exn)
| OutOfFuel.

Arguments Ret {A} a.
Arguments Throw {A} e.
Arguments OutOfFuel {A}.

#[global] Instance res_ret : MRet res := fun _ a => Ret a.
#[global] Instance res_bind : MBind res := fun _ _ f m =>
  match m with
  | Ret a => f a
  | Throw e => Throw e
  | OutOfFuel => OutOfFuel
  end.

(** ** Strings and the string built-ins *)

Module JS.

Definition char : Type := N.
Definition str : Type := list N.

Definition code (a : ascii) : char := N_of_ascii a.

(** [lit] reads an ASCII literal as a JavaScript string. *)
Fixpoint lit (s : string) : str :=
  match s with
  | EmptyString => []
  | String a s' => code a :: lit s'
  end.

#[global] Arguments lit : simpl never.

Definition LF : char := 10%N.
Definition CR : char := 13%N.
Definition DQUOTE : char := 34%N.
Definition BACKSLASH : char := 92%N.

(** WhiteSpace and LineTerminator code points of ECMAScript: what [trim],
    [trimEnd] and the regular-expression class [\s] all use. *)
Definition isWhiteSpace (c : char) : bool :=
  ((9 <=? c) && (c <=? 13) || (c =? 32) || (c =? 160) || (c =? 5760)
   || (8192 <=? c) && (c <=? 8202) || (c =? 8232) || (c =? 8233)
   || (c =? 8239) || (c =? 8287) || (c =? 12288) || (c =? 65279))%N.

(** LineTerminator: what the regular-expression [.] refuses. *)
Definition isLineTerminator (c : char) : bool :=
  ((c =? 10) || (c =? 13) || (c =? 8232) || (c =? 8233))%N.

Fixpoint dropWhile (p : char -> bool) (s : str) : str :=
  match s with
  | [] => []
  | c :: s' => if p c then dropWhile p s' else s
  end.

Fixpoint takeWhile (p : char -> bool) (s : str) : str :=
  match s with
  | [] => []
  | c :: s' => if p c then c :: takeWhile p s' else []
  end.

Definition trimStart (s : str) : str := dropWhile isWhiteSpace s.
Definition trimEnd (s : str) : str := rev (dropWhile isWhiteSpace (rev s)).
Definition trim (s : str) : str := trimEnd (trimStart s).

(** [s.substring(start)]; an absent [start] is 0, one past the end gives the
    empty string. *)
Definition substring (s : str) (start : nat) : str := drop start s.

Fixpoint startsWith (pat s : str) : bool :=
  match pat, s with
  | [], _ => true
  | _ :: _, [] => false
  | p :: pat', c :: s' => (p =? c)%N && startsWith pat' s'
  end.

(** [s.indexOf(pat)], -1 when absent. *)
Fixpoint indexOf_from (pat s : str) (i : Z) : Z :=
  if startsWith pat s then i
  else match s with
       | [] => -1
       | _ :: s' => indexOf_from pat s' (i + 1)
       end.

Definition indexOf (s pat : str) : Z := indexOf_from pat s 0.

(** The text before and after the first occurrence of [pat] in [s]. *)
Fixpoint findFirst (pat s : str) : option (str * str) :=
  if startsWith pat s then Some ([], drop (length pat) s)
  else match s with
       | [] => None
       | c :: s' =>
           match findFirst pat s' with
           | Some (before, after) => Some (c :: before, after)
           | None => None
           end
       end.

(** GetSubstitution for a string pattern (no captures): [$$], [$&], [$`] and
    [$'] are expanded; [$] before a digit, before [<] or before anything else
    stands for itself. *)
Fixpoint getSubstitution (matched before after template : str) : str :=
  match template with
  | [] => []
  | c :: t =>
      if (c =? 36)%N then
        match t with
        | [] => [c]
        | d :: t' =>
            if (d =? 36)%N then 36%N :: getSubstitution matched before after t'
            else if (d =? 38)%N then matched ++ getSubstitution matched before after t'
            else if (d =? 96)%N then before ++ getSubstitution matched before after t'
            else if (d =? 39)%N then after ++ getSubstitution matched before after t'
            else c :: getSubstitution matched before after t
        end
      else c :: getSubstitution matched before after t
  end.

(** [s.replace(pat, replacement)] with a string pattern: the first occurrence
    only. *)
Definition replace (s pat replacement : str) : str :=
  match findFirst pat s with
  | None => s
  | Some (before, after) =>
      before ++ getSubstitution pat before after replacement ++ after
  end.

Fixpoint repeat_nat (s : str) (n : nat) : str :=
  match n with
  | O => []
  | S n' => s ++ repeat_nat s n'
  end.

(** [s.repeat(count)] throws a RangeError for a negative count. *)
Definition repeat (s : str) (count : Z) : res str :=
  if count <? 0 then Throw RangeError else Ret (repeat_nat s (Z.to_nat count)).

(** [s.split(/\r?\n/)]: cut at every LF, taking a CR just before it along. *)
Fixpoint split_from (cur : str) (s : str) : list str :=
  match s with
  | [] => [rev cur]
  | c :: s' =>
      if (c =? LF)%N then rev cur :: split_from [] s'
      else if (c =? CR)%N then
        match s' with
        | d :: s'' =>
            if (d =? LF)%N then rev cur :: split_from [] s''
            else split_from (c :: cur) s'
        | [] => split_from (c :: cur) s'
        end
      else split_from (c :: cur) s'
  end.

Definition splitLines (s : str) : list str := split_from [] s.

(** [lines.join('')]. *)
Definition join (parts : list str) : str := concat parts.

(** Number to string, for the heading level appended to ['h']. *)
Fixpoint digits_fuel (fuel n : nat) (acc : str) : str :=
  match fuel with
  | O => acc
  | S f =>
      let d := N.of_nat (48 + Nat.modulo n 10) in
      if (n <? 10)%nat then d :: acc else digits_fuel f (Nat.div n 10) (d :: acc)
  end.

Definition numberToString (n : nat) : str := digits_fuel (S n) n [].

(** How many positions of [s] start an occurrence of [pat]. *)
Fixpoint countOccurrences (pat s : str) : nat :=
  match s with
  | [] => O
  | _ :: s' => ((if startsWith pat s then 1 else 0) + countOccurrences pat s')%nat
  end.

End JS.

(** ** The regular expressions of the source

    Each matcher below is the source's regular expression specialised by hand.
    Where a greedy quantifier is followed by a disjoint character class,
    backtracking cannot change the outcome, so the greedy run is a
    [takeWhile]. *)

Module Regex.
Import JS.

Definition HASH : char := 35%N.
Definition EQUALS : char := 61%N.
Definition MINUS : char := 45%N.
Definition GT : char := 62%N.

Definition isChar (a c : char) : bool := (a =? c)%N.

(** [s.match(/```/g)]: all occurrences, the first of which is element 0. *)
Definition match_code_marker (s : str) : option str :=
  if indexOf s (lit "```") =? -1 then None else Some (lit "```").

(** [s.match(/^\s*#{1,6}/g)]. *)
Definition match_atx (s : str) : option str :=
  let ws := takeWhile isWhiteSpace s in
  let hashes := take 6 (takeWhile (isChar HASH) (dropWhile isWhiteSpace s)) in
  match hashes with
  | [] => None
  | _ :: _ => Some (ws ++ hashes)
  end.

(** One alternative of the setext expression, [^c+\s*$]: the whole string. *)
Definition match_underline (c : char) (s : str) : option str :=
  match takeWhile (isChar c) s with
  | [] => None
  | _ :: _ => if forallb isWhiteSpace (dropWhile (isChar c) s) then Some s else None
  end.

(** [s.match(/(^=+\s*$)|(^-+\s*$)/g)]. *)
Definition match_setext (s : str) : option str :=
  match match_underline EQUALS s with
  | Some m => Some m
  | None => match_underline MINUS s
  end.

(** [s.match(re)] for the blockquote expression: a start anchor, then one
    group holding [>+] followed by [\s*] (both greedy), flag [g]. *)
Definition match_blockquote (s : str) : option str :=
  match takeWhile (isChar GT) s with
  | [] => None
  | gts => Some (gts ++ takeWhile isWhiteSpace (dropWhile (isChar GT) s))
  end.

(** The four inline expressions share one shape,
    [/(?<!\\)[c]{n}(.+?)(?<!\\)[c]{n}/g]; [delimiter] is [c] repeated [n]
    times. *)
Record inline_regex : Type := { delim_char : char; delim_count : nat }.

Definition delimiter (re : inline_regex) : str :=
  List.repeat (delim_char re) (delim_count re).

(** [(?<!\\)] at a position whose preceding code unit is [prev]. *)
Definition notAfterBackslash (prev : option char) : bool :=
  match prev with
  | Some c => negb (c =? BACKSLASH)%N
  | None => true
  end.

(** The lazy group [(.+?)] followed by the closing delimiter: [g_rev] holds,
    reversed, what the group has taken (its last unit is [last]); the group
    stops at the first place where the closing delimiter matches, and cannot
    take a line terminator. *)
Fixpoint lazy_group (D : str) (g_rev : str) (last : char) (rest : str) : option str :=
  if negb (last =? BACKSLASH)%N && startsWith D rest then Some (rev g_rev)
  else match rest with
       | [] => None
       | c :: rest' =>
           if isLineTerminator c then None
           else lazy_group D (c :: g_rev) c rest'
       end.

(** One attempt at the position where [s] starts: the whole match and group
    1. *)
Definition exec_at (D : str) (prev : option char) (s : str) : option (str * str) :=
  if notAfterBackslash prev && startsWith D s then
    match drop (length D) s with
    | [] => None
    | c :: rest =>
        if isLineTerminator c then None
        else match lazy_group D [c] c rest with
             | Some g => Some (D ++ g ++ D, g)
             | None => None
             end
    end
  else None.

(** The left-to-right scan of a global expression: after a match the scan
    resumes just past it ([skip] counts the units of the match still to be
    passed over). *)
Fixpoint scan (D : str) (skip : nat) (prev : option char) (s : str) : list (str * str) :=
  match s with
  | [] => []
  | c :: s' =>
      match skip with
      | S n => scan D n (Some c) s'
      | O =>
          match exec_at D prev s with
          | Some m => m :: scan D (length (fst m) - 1) (Some c) s'
          | None => scan D 0 (Some c) s'
          end
      end
  end.

(** [[...s.matchAll(re)]]: every match with its group 1. *)
Definition matchAll (re : inline_regex) (s : str) : list (str * str) :=
  scan (delimiter re) 0 None s.

End Regex.

(** ** The parser *)

Module MarkdownParser.
Import JS Regex.

(** The value handed to [parseMarkdown]; only strings are parsed. *)
Inductive value : Type :=
| VUndefined
| VNull
| VBoolean (b : bool)
| VNumber (z : Z)
| VString (s : str)
| VObject.

Definition typeof (v : value) : str :=
  match v with
  | VUndefined => lit "undefined"
  | VNull => lit "object"
  | VBoolean _ => lit "boolean"
  | VNumber _ => lit "number"
  | VString _ => lit "string"
  | VObject => lit "object"
  end.

(** [this.state], as [reset] builds it. *)
Record State : Type := {
  blockquoteLevel : Z;
  insideCodeContainer : bool;
  listLevel : Z;
  listType : option str
}.

Definition reset : State :=
  {| blockquoteLevel := 0; insideCodeContainer := false;
     listLevel := 0; listType := None |}.

Definition set_blockquoteLevel (s : State) (n : Z) : State :=
  {| blockquoteLevel := n; insideCodeContainer := insideCodeContainer s;
     listLevel := listLevel s; listType := listType s |}.

Definition set_insideCodeContainer (s : State) (b : bool) : State :=
  {| blockquoteLevel := blockquoteLevel s; insideCodeContainer := b;
     listLevel := listLevel s; listType := listType s |}.

(** *** INLINE *)

Record inline_rule : Type := {
  original : str;
  matcher : inline_regex;
  tag : str
}.

Definition STAR : char := 42%N.
Definition UNDERSCORE : char := 95%N.

Definition INLINE : list inline_rule :=
  [ {| original := lit "**"; matcher := {| delim_char := STAR; delim_count := 2 |};
       tag := lit "strong" |};
    {| original := lit "__"; matcher := {| delim_char := UNDERSCORE; delim_count := 2 |};
       tag := lit "strong" |};
    {| original := lit "*"; matcher := {| delim_char := STAR; delim_count := 1 |};
       tag := lit "em" |};
    {| original := lit "_"; matcher := {| delim_char := UNDERSCORE; delim_count := 1 |};
       tag := lit "em" |} ].

(** *** SANITIZE_REPLACEMENTS, in the order [for ... in] visits its keys. *)
Definition SANITIZE_REPLACEMENTS : list (str * str) :=
  [ (lit "<", lit "&lt;"); (lit ">", lit "&gt;") ].

Definition escapeHTMLChars (text : str) : str :=
  fold_left (fun t kv => JS.replace t (fst kv) (snd kv)) SANITIZE_REPLACEMENTS
    (JS.replace text (lit "&") (lit "&amp;")).

Definition wrapWithTag (tag text : str) : str :=
  lit "<" ++ tag ++ lit ">" ++ escapeHTMLChars text ++ lit "</" ++ tag ++ lit ">".

Definition isEmpty (s : str) : bool := (length (trim s) =? 0)%nat.

(** *** BLOCK and BLOCK_MATCHERS *)

Inductive block : Type :=
| blockquote
| code_container_marker
| break
| atx_heading
| setext_heading
| plaintext.

#[global] Instance block_eq_dec : EqDecision block.
Proof. solve_decision. Defined.

(** The second component of what [getBlockInfo] returns: element 0 of the
    match, or the number 0. *)
Inductive matched_t : Type :=
| MString (s : str)
| MZero.

(** Calling a string method on [matched]. *)
Definition asString (m : matched_t) : res str :=
  match m with
  | MString s => Ret s
  | MZero => Throw TypeError
  end.

Definition BLOCK_MATCHERS : list ((str -> option str) * block) :=
  [ (match_code_marker, code_container_marker);
    (match_atx, atx_heading);
    (match_setext, setext_heading);
    (match_blockquote, blockquote) ].

Fixpoint firstMatch (ms : list ((str -> option str) * block)) (s : str)
  : block * matched_t :=
  match ms with
  | [] => (plaintext, MZero)
  | (re, b) :: ms' =>
      match re s with
      | Some m0 => (b, MString m0)
      | None => firstMatch ms' s
      end
  end.

Definition getBlockInfo (line : str) (start_pos : nat) : block * matched_t :=
  if isEmpty (substring line start_pos) then (break, MZero)
  else firstMatch BLOCK_MATCHERS (substring line start_pos).

(** [raw_lines[i]] followed by a method call: a TypeError when out of range. *)
Definition lineAt (raw_lines : list str) (i : nat) : res str :=
  match raw_lines !! i with
  | Some l => Ret l
  | None => Throw TypeError
  end.

(** [BLOCK.x.parse(raw_lines, i, line_start_pos, parsed_lines, matched)]:
    the array [parsed_lines] as the call leaves it, and the returned pair
    (text, last line index) or [undefined].

    In [atx_heading], [replace(new RegExp(matched), '')] is given [matched]
    from [match_atx], white space and [#] only; such an expression stands for
    its own text, so the call removes the first occurrence of that text. *)
Definition parse (b : block) (raw_lines : list str) (i line_start_pos : nat)
    (parsed_lines : list str) (matched : matched_t)
  : res (list str * option (str * nat)) :=
  match b with
  | blockquote => Ret (parsed_lines, None)
  | code_container_marker => Ret (parsed_lines, None)
  | break => Ret (parsed_lines, Some (lit "<br />", i))
  | atx_heading =>
      m ← asString matched;
      let len := length (trim m) in
      raw ← lineAt raw_lines i;
      Ret (parsed_lines,
           Some (wrapWithTag (lit "h" ++ numberToString len)
                   (trim (JS.replace (substring raw line_start_pos) m [])), i))
  | setext_heading =>
      m ← asString matched;
      let tag := if indexOf m (lit "=") >? -1 then lit "h1" else lit "h2" in
      if (0 <? length parsed_lines)%nat then
        match parsed_lines !! (length parsed_lines - 1)%nat with
        | Some prev =>
            Ret (<[(length parsed_lines - 1)%nat := wrapWithTag tag prev]> parsed_lines, None)
        | None => Throw TypeError
        end
      else Ret (parsed_lines, None)
  | plaintext =>
      raw ← lineAt raw_lines i;
      Ret (parsed_lines, Some (substring raw line_start_pos, i))
  end.

(** *** The main loop of [parseMarkdown] *)

Record loop_state : Type := {
  state : State;
  not_a_paragraph : gmap nat bool;
  parsed_lines : list str;
  k : nat
}.

Definition OPEN_PRE (language : str) : str :=
  lit "<pre" ++ (if isEmpty language then lit ">"
                 else lit " class=" ++ [DQUOTE] ++ lit "lang-" ++ language
                      ++ [DQUOTE] ++ lit ">").

(** The blockquote bookkeeping of one iteration: the state, the lines pushed
    so far, [nest_offset] and the (re)classification. *)
Definition blockquoteStep (s : State) (pl : list str) (line : str)
    (block_class : block) (matched : matched_t)
  : res (State * list str * nat * (block * matched_t)) :=
  if decide (block_class = blockquote) then
    m ← asString matched;
    let depth_diff := Z.of_nat (length (trim m)) - blockquoteLevel s in
    '(s1, pl1) ←
      (if negb (depth_diff =? 0) then
         let tag := lit "<" ++ (if depth_diff <? 0 then lit "/" else [])
                    ++ lit "blockquote>" in
         t ← JS.repeat tag (Z.abs depth_diff);
         Ret (set_blockquoteLevel s (blockquoteLevel s + depth_diff), pl ++ [t])
       else Ret (s, pl));
    let nest_offset := length m in
    Ret (s1, pl1, nest_offset, getBlockInfo line nest_offset)
  else if blockquoteLevel s >? 0 then
    t ← JS.repeat (lit "</blockquote>") (blockquoteLevel s);
    Ret (s, pl ++ [t], O, (block_class, matched))
  else Ret (s, pl, O, (block_class, matched)).

(** One iteration of [while (k < raw_lines.length)]. *)
Definition loopBody (raw_lines : list str) (c : loop_state) : res loop_state :=
  raw ← lineAt raw_lines (k c);
  let line := trimEnd raw in
  let '(block_class, matched) := getBlockInfo line 0 in
  if decide (block_class = code_container_marker) then
    let s1 := set_insideCodeContainer (state c) (negb (insideCodeContainer (state c))) in
    let pushed :=
      if insideCodeContainer s1 then OPEN_PRE (substring line 3) else lit "</pre>" in
    Ret {| state := s1; not_a_paragraph := not_a_paragraph c;
           parsed_lines := parsed_lines c ++ [pushed]; k := S (k c) |}
  else if insideCodeContainer (state c) then
    let pl1 := parsed_lines c ++ [escapeHTMLChars raw ++ [LF]] in
    Ret {| state := state c;
           not_a_paragraph := <[(length pl1 - 1)%nat := true]> (not_a_paragraph c);
           parsed_lines := pl1; k := S (k c) |}
  else
    '(s1, pl1, nest_offset, (block_class1, matched1)) ←
      blockquoteStep (state c) (parsed_lines c) line block_class matched;
    '(pl2, result) ← parse block_class1 raw_lines (k c) nest_offset pl1 matched1;
    match result with
    | Some (text, last) =>
        Ret {| state := s1; not_a_paragraph := not_a_paragraph c;
               parsed_lines := pl2 ++ [text];
               k := if (k c <=? last)%nat then S last else k c |}
    | None =>
        Ret {| state := s1; not_a_paragraph := not_a_paragraph c;
               parsed_lines := pl2; k := S (k c) |}
    end.

Fixpoint mainLoop (fuel : nat) (raw_lines : list str) (c : loop_state) : res loop_state :=
  if (k c <? length raw_lines)%nat then
    match fuel with
    | O => OutOfFuel
    | S fuel' => c' ← loopBody raw_lines c; mainLoop fuel' raw_lines c'
    end
  else Ret c.

(** *** The second pass: paragraphs and inline elements *)

Definition isNotAParagraph (np : gmap nat bool) (i : nat) : bool :=
  default false (np !! i).

Definition paragraphStep (np : gmap nat bool) (i : nat) (f : str) : str :=
  if negb (isNotAParagraph np i) && (indexOf f (lit "<") =? -1)
  then wrapWithTag (lit "p") f else f.

Definition applyRule (r : inline_rule) (f : str) : str :=
  fold_left (fun cur m => JS.replace cur (fst m) (wrapWithTag (tag r) (snd m)))
    (matchAll (matcher r) f) f.

Definition inlineStep (f : str) : str :=
  fold_left (fun cur r => applyRule r cur) INLINE f.

Definition secondPass (np : gmap nat bool) (pl : list str) : list str :=
  imap (fun i f => inlineStep (paragraphStep np i f)) pl.

(** The closing of blockquotes still open after the last line. *)
Definition closeBlockquotes (s : State) (pl : list str) : res (list str) :=
  if blockquoteLevel s >? 0 then
    t ← JS.repeat (lit "</blockquote>") (blockquoteLevel s);
    Ret (pl ++ [t])
  else Ret pl.

(** *** parseMarkdown: the output and the state left in [this.state] *)

Definition startLoop (s : State) : loop_state :=
  {| state := s; not_a_paragraph := ∅; parsed_lines := []; k := O |}.

Definition parseMarkdownFuel (fuel : nat) (s : State) (raw_markdown : value)
  : res (str * State) :=
  match raw_markdown with
  | VString text =>
      if (length (trim text) =? 0)%nat then Ret ([], s)
      else
        let raw_lines := splitLines text in
        c ← mainLoop fuel raw_lines (startLoop s);
        pl ← closeBlockquotes (state c) (secondPass (not_a_paragraph c) (parsed_lines c));
        Ret (join pl, state c)
  | _ => Ret ([], s)
  end.

(** One turn of the loop per raw line is all the loop ever takes (see
    [mainLoop_fuel_enough] below), so this is the function the callers see. *)
Definition parseMarkdown (s : State) (raw_markdown : value) : res (str * State) :=
  match raw_markdown with
  | VString text => parseMarkdownFuel (length (splitLines text)) s raw_markdown
  | _ => parseMarkdownFuel O s raw_markdown
  end.

End MarkdownParser.

(** * Properties *)

Module Properties.
Import JS Regex MarkdownParser.

(** ** Notions used in the statements *)

(** What the classifier may return: the number 0 only next to [break] and
    [plaintext], whose handlers do not look at it. *)
Definition matchedOk (bm : block * matched_t) : Prop :=
  match bm with
  | (break, _) | (plaintext, _) => True
  | (_, MString _) => True
  | (_, MZero) => False
  end.

(** The paragraph half of the second pass, over the whole sequence. *)
Definition paragraphPass (np : gmap nat bool) (pl : list str) : list str :=
  imap (paragraphStep np) pl.

(** What is appended after the last fragment: close tags for the blockquote
    level still open, and nothing for a code container still open. *)
Definition endOfDocument (s : State) : str :=
  if blockquoteLevel s >? 0
  then repeat_nat (lit "</blockquote>") (Z.to_nat (blockquoteLevel s))
  else [].

(** The fragments [p] are still the first fragments of [parsed_lines], the
    last of them is not the last fragment unless a fence is open, and index
    [n] is flagged. *)
Definition fragmentKept (p : list str) (n : nat) (c : loop_state) : Prop :=
  (exists rest, parsed_lines c = p ++ rest
                /\ (rest = [] -> insideCodeContainer (state c) = true))
  /\ isNotAParagraph (not_a_paragraph c) n = true.

(** The first [n] turns of the main loop. *)
Fixpoint turns (n : nat) (raw_lines : list str) (c : loop_state) : res loop_state :=
  match n with
  | O => Ret c
  | S n' => c' ← loopBody raw_lines c; turns n' raw_lines c'
  end.

(** A raw line that the loop takes for a fence marker, and how many of them a
    document has. *)
Definition isMarkerLine (raw : str) : bool :=
  bool_decide ((getBlockInfo (trimEnd raw) 0).1 = code_container_marker).

Definition markerLines (raw_lines : list str) : nat :=
  length (List.filter isMarkerLine raw_lines).

(** The number of [>] a line starts with. *)
Definition quoteDepth (line : str) : Z :=
  Z.of_nat (length (takeWhile (isChar GT) line)).

(** A line that goes to the setext handler, with underline [m], on a turn
    where the blockquote step pushes nothing: an underline met at blockquote
    level 0, or a blockquote line of the depth already open whose remainder
    is an underline. *)
Definition setextOnly (s : State) (line m : str) : Prop :=
  (getBlockInfo line 0 = (setext_heading, MString m) /\ blockquoteLevel s <= 0)
  \/ (exists q, getBlockInfo line 0 = (blockquote, MString q)
                /\ Z.of_nat (length (trim q)) = blockquoteLevel s
                /\ getBlockInfo line (length q) = (setext_heading, MString m)).

(** A state with its two list fields replaced. *)
Definition withLists (s : State) (level : Z) (type : option str) : State :=
  {| blockquoteLevel := blockquoteLevel s;
     insideCodeContainer := insideCodeContainer s;
     listLevel := level; listType := type |}.

(** The reserved characters beside [GT], and the [$] of replacement
    patterns. *)
Definition LT : char := 60%N.
Definition AMP : char := 38%N.
Definition DOLLAR : char := 36%N.

(** The code unit just before a position reached after reading [a], when
    the one before [a] was [prev]. *)
Definition lastOr (prev : option char) (a : str) : option char :=
  match last a with
  | Some x => Some x
  | None => prev
  end.

(** Every occurrence of [c] in [s] stands right after a backslash ([prev] is
    the unit before [s]). *)
Fixpoint escapedOnly (c : char) (prev : option char) (s : str) : bool :=
  match s with
  | [] => true
  | d :: s' =>
      (negb (d =? c)%N || negb (notAfterBackslash prev)) && escapedOnly c (Some d) s'
  end.

(** Every index in [not_a_paragraph] is set to [true], holds the fragment of a
    raw line taken inside a fence, and is the last index only while a fence is
    open. *)
Definition flagsOk (raw_lines : list str) (c : loop_state) : Prop :=
  forall i b, not_a_paragraph c !! i = Some b ->
    b = true
    /\ (exists raw, raw ∈ raw_lines
                    /\ parsed_lines c !! i = Some (escapeHTMLChars raw ++ [LF]))
    /\ (S i = length (parsed_lines c) -> insideCodeContainer (state c) = true).

(** Lines put back together with a line feed between them. *)
Fixpoint joinLF (lines : list str) : str :=
  match lines with
  | [] => []
  | [l] => l
  | l :: ls => l ++ LF :: joinLF ls
  end.

(** ** Strings *)

Lemma dropWhile_all (p : char -> bool) (s : str) :
  forallb p s = true -> dropWhile p s = [].
Proof.
  induction s as [|c s IH]; simpl; [done|].
  intros [Hc Hs]%andb_true_iff. rewrite Hc. auto.
Qed.

Lemma trim_blank (s : str) : forallb isWhiteSpace s = true -> trim s = [].
Proof.
  intros H. unfold trim, trimStart, trimEnd.
  rewrite (dropWhile_all _ _ H). reflexivity.
Qed.

(** A string that starts with [pat] has it at index 0. *)
Lemma indexOf_startsWith (pat s : str) :
  startsWith pat s = true -> indexOf s pat = 0.
Proof.
  intros H. unfold indexOf. destruct s; simpl; rewrite H; reflexivity.
Qed.

(** [indexOf] of a one-unit pattern is -1 exactly when the unit is absent. *)
Lemma indexOf_from_absent (c : char) (s : str) (i : Z) :
  0 <= i -> (indexOf_from [c] s i = -1 <-> c ∉ s).
Proof.
  revert i. induction s as [|d s IH]; intros i Hi; simpl.
  - split; [intros _; apply not_elem_of_nil | done].
  - destruct (N.eqb_spec c d) as [->|Hcd]; simpl.
    + split; [lia | intros H; exfalso; apply H; left].
    + rewrite IH by lia. rewrite not_elem_of_cons. tauto.
Qed.

Lemma indexOf_absent (c : char) (s : str) : indexOf s [c] = -1 <-> c ∉ s.
Proof. apply indexOf_from_absent. lia. Qed.

(** ** The classifier never hands a handler the number 0 where the handler
    calls a string method *)

Lemma firstMatch_ok (ms : list ((str -> option str) * block)) (s : str) :
  matchedOk (firstMatch ms s).
Proof.
  induction ms as [|[re b] ms IH]; simpl; [done|].
  destruct (re s); [by destruct b | done].
Qed.

Lemma getBlockInfo_ok (line : str) (start_pos : nat) :
  matchedOk (getBlockInfo line start_pos).
Proof.
  unfold getBlockInfo. destruct (isEmpty _); [done | apply firstMatch_ok].
Qed.

Lemma lineAt_lt (raw_lines : list str) (i : nat) :
  (i < length raw_lines)%nat -> exists raw, lineAt raw_lines i = Ret raw.
Proof.
  intros H. unfold lineAt.
  destruct (lookup_lt_is_Some_2 raw_lines i H) as [raw ->]. eauto.
Qed.

Lemma repeat_nonneg (s : str) (n : Z) :
  0 <= n -> JS.repeat s n = Ret (repeat_nat s (Z.to_nat n)).
Proof.
  intros H. unfold JS.repeat. destruct (Z.ltb_spec n 0); [lia | done].
Qed.

(** The handlers return, and the index they return is the one they got. *)
Lemma parse_ok (b : block) (raw_lines : list str) (i pos : nat)
    (pl : list str) (m : matched_t) :
  matchedOk (b, m) -> (i < length raw_lines)%nat ->
  exists pl' r, parse b raw_lines i pos pl m = Ret (pl', r)
    /\ (forall t last, r = Some (t, last) -> last = i).
Proof.
  intros Hm Hi. destruct (lineAt_lt raw_lines i Hi) as [raw Hraw].
  destruct b; simpl in *.
  - eexists _, _; split; [done | congruence].
  - eexists _, _; split; [done | congruence].
  - eexists _, _; split; [done | congruence].
  - destruct m as [s|]; [|done]. simpl. rewrite Hraw. simpl.
    eexists _, _; split; [done | congruence].
  - destruct m as [s|]; [|done]. simpl.
    destruct (Nat.ltb_spec 0 (length pl)) as [Hlen|Hlen].
    + destruct (lookup_lt_is_Some_2 pl (length pl - 1)) as [prev ->]; [lia|].
      eexists _, _; split; [done | congruence].
    + eexists _, _; split; [done | congruence].
  - rewrite Hraw. simpl. eexists _, _; split; [done | congruence].
Qed.

Lemma blockquoteStep_ok (s : State) (pl : list str) (line : str)
    (b : block) (m : matched_t) :
  matchedOk (b, m) ->
  exists s1 pl1 off bm, blockquoteStep s pl line b m = Ret (s1, pl1, off, bm)
    /\ matchedOk bm.
Proof.
  intros Hm. unfold blockquoteStep. case_decide as Hb.
  - subst b. destruct m as [t|]; [|done]. simpl.
    destruct (Z.of_nat (length (trim t)) - blockquoteLevel s =? 0); simpl.
    + eexists _, _, _, _; split; [done | apply getBlockInfo_ok].
    + rewrite repeat_nonneg by lia. simpl.
      eexists _, _, _, _; split; [done | apply getBlockInfo_ok].
  - destruct (Z.gtb_spec (blockquoteLevel s) 0).
    + rewrite repeat_nonneg by lia. simpl. eexists _, _, _, _; split; done.
    + eexists _, _, _, _; split; done.
Qed.

(** ** The main loop *)

Section MainLoop.

Variable raw_lines : list str.

(** Every turn of the loop returns and moves [k] to the next line. *)
Lemma loopBody_ok (c : loop_state) :
  (k c < length raw_lines)%nat ->
  exists c', loopBody raw_lines c = Ret c' /\ k c' = S (k c).
Proof.
  intros Hk. unfold loopBody.
  destruct (lineAt_lt raw_lines (k c) Hk) as [raw ->]. simpl.
  pose proof (getBlockInfo_ok (trimEnd raw) 0) as Hok.
  destruct (getBlockInfo (trimEnd raw) 0) as [b m].
  case_decide; [eauto|].
  destruct (insideCodeContainer (state c)); [eauto|].
  destruct (blockquoteStep_ok (state c) (parsed_lines c) (trimEnd raw) b m Hok)
    as (s1 & pl1 & off & [b1 m1] & -> & Hok1). simpl.
  destruct (parse_ok b1 raw_lines (k c) off pl1 m1 Hok1 Hk)
    as (pl2 & r & -> & Hlast). simpl.
  destruct r as [[t last]|]; [|eauto].
  rewrite (Hlast t last eq_refl).
  eexists; split; [done|]. simpl. rewrite Nat.leb_refl. done.
Qed.

Lemma mainLoop_fuel_enough (fuel : nat) (c : loop_state) :
  (length raw_lines - k c <= fuel)%nat ->
  exists c', mainLoop fuel raw_lines c = Ret c'.
Proof.
  revert c. induction fuel as [|fuel IH]; intros c Hfuel; simpl.
  - destruct (Nat.ltb_spec (k c) (length raw_lines)); [lia | eauto].
  - destruct (Nat.ltb_spec (k c) (length raw_lines)) as [Hk|Hk]; [|eauto].
    destruct (loopBody_ok c Hk) as (c1 & -> & Hk1). simpl.
    apply IH. lia.
Qed.

Lemma mainLoop_fuel_mono (fuel fuel' : nat)
    (c c' : loop_state) :
  mainLoop fuel raw_lines c = Ret c' -> (fuel <= fuel')%nat ->
  mainLoop fuel' raw_lines c = Ret c'.
Proof.
  revert fuel' c. induction fuel as [|fuel IH]; intros fuel' c; simpl.
  - destruct (Nat.ltb_spec (k c) (length raw_lines)) as [Hk|Hk]; [done|].
    intros H _. destruct fuel'; simpl;
      destruct (Nat.ltb_spec (k c) (length raw_lines)); (lia || done).
  - destruct (Nat.ltb_spec (k c) (length raw_lines)) as [Hk|Hk].
    + intros H Hle. destruct fuel' as [|fuel']; [lia|]. simpl.
      destruct (Nat.ltb_spec (k c) (length raw_lines)); [|lia].
      destruct (loopBody raw_lines c) as [c1| |]; simpl in *; try done.
      apply IH; [done | lia].
    + intros H _. destruct fuel'; simpl;
        destruct (Nat.ltb_spec (k c) (length raw_lines)); (lia || done).
Qed.

(** What every turn preserves holds when the loop is left. *)
Lemma mainLoop_invariant (P : loop_state -> Prop) :
  (forall c c', P c -> (k c < length raw_lines)%nat ->
                loopBody raw_lines c = Ret c' -> P c') ->
  forall fuel c c', P c -> mainLoop fuel raw_lines c = Ret c' -> P c'.
Proof.
  intros Hstep fuel. induction fuel as [|fuel IH]; intros c c' HP; simpl.
  - destruct (Nat.ltb_spec (k c) (length raw_lines)); [done|].
    intros [= <-]. done.
  - destruct (Nat.ltb_spec (k c) (length raw_lines)) as [Hk|Hk].
    + destruct (loopBody raw_lines c) as [c1| |] eqn:Hbody; simpl; try done.
      apply IH. eapply Hstep; eauto.
    + intros [= <-]. done.
Qed.

(** After [n] turns the loop is [n] lines further, and the loop run from the
    start is those turns followed by the rest of the loop. *)
Lemma turns_k (n : nat) (c c' : loop_state) :
  turns n raw_lines c = Ret c' -> (k c + n <= length raw_lines)%nat ->
  k c' = (k c + n)%nat.
Proof.
  revert c. induction n as [|n IH]; intros c; cbn [turns].
  - intros [= <-] _. lia.
  - intros Hturns Hk.
    destruct (loopBody_ok c) as (c1 & Hbody & Hk1); [lia|].
    rewrite Hbody in Hturns. cbn [mbind res_bind] in Hturns.
    rewrite (IH c1 Hturns) by lia. lia.
Qed.

Lemma mainLoop_turns (n fuel : nat) (c c' : loop_state) :
  turns n raw_lines c = Ret c' -> (k c + n <= length raw_lines)%nat ->
  mainLoop (n + fuel) raw_lines c = mainLoop fuel raw_lines c'.
Proof.
  revert c. induction n as [|n IH]; intros c; cbn [turns].
  - by intros [= <-] _.
  - intros Hturns Hk. cbn [Nat.add mainLoop].
    destruct (Nat.ltb_spec (k c) (length raw_lines)); [|lia].
    destruct (loopBody_ok c) as (c1 & Hbody & Hk1); [lia|].
    rewrite Hbody in Hturns |- *. cbn [mbind res_bind] in Hturns |- *.
    apply IH; [done | lia].
Qed.

End MainLoop.

Lemma closeBlockquotes_ok (s : State) (pl : list str) :
  closeBlockquotes s pl =
  Ret (if blockquoteLevel s >? 0
       then pl ++ [repeat_nat (lit "</blockquote>") (Z.to_nat (blockquoteLevel s))]
       else pl).
Proof.
  unfold closeBlockquotes. destruct (Z.gtb_spec (blockquoteLevel s) 0); [|done].
  rewrite repeat_nonneg by lia. done.
Qed.

(** With the loop's result in hand, the rest of [parseMarkdown] is the second
    pass, the closing of open blockquotes and the join. *)
Lemma parseMarkdownFuel_unfold (fuel : nat) (s : State) (text : str) (c : loop_state) :
  trim text <> [] ->
  mainLoop fuel (splitLines text) (startLoop s) = Ret c ->
  parseMarkdownFuel fuel s (VString text) =
  Ret (join (secondPass (not_a_paragraph c) (parsed_lines c)
             ++ (if blockquoteLevel (state c) >? 0
                 then [repeat_nat (lit "</blockquote>")
                         (Z.to_nat (blockquoteLevel (state c)))]
                 else [])),
       state c).
Proof.
  intros Hne Hloop. unfold parseMarkdownFuel.
  destruct (trim text) eqn:Ht; [done|]. simpl.
  rewrite Hloop. simpl. rewrite closeBlockquotes_ok. simpl.
  destruct (blockquoteLevel (state c) >? 0); [done|].
  by rewrite app_nil_r.
Qed.

Lemma parseMarkdownFuel_ok (fuel : nat) (s : State) (v : value) :
  (match v with VString text => length (splitLines text) <= fuel | _ => True end)%nat ->
  exists out s', parseMarkdownFuel fuel s v = Ret (out, s').
Proof.
  destruct v as [| | | |text|]; simpl; eauto.
  intros Hfuel. destruct (length (trim text) =? 0)%nat; [eauto|].
  destruct (mainLoop_fuel_enough (splitLines text) fuel (startLoop s)) as [c ->];
    [simpl; lia|].
  simpl. rewrite closeBlockquotes_ok. simpl. eauto.
Qed.

Lemma parseMarkdown_ok (s : State) (v : value) :
  exists out s', parseMarkdown s v = Ret (out, s').
Proof.
  unfold parseMarkdown. destruct v; apply parseMarkdownFuel_ok; done.
Qed.

(** More fuel than one turn per line changes nothing. *)
Lemma parseMarkdownFuel_enough (fuel : nat) (s : State) (text : str) :
  (length (splitLines text) <= fuel)%nat ->
  parseMarkdownFuel fuel s (VString text) = parseMarkdown s (VString text).
Proof.
  intros Hfuel. unfold parseMarkdown, parseMarkdownFuel.
  destruct (length (trim text) =? 0)%nat; [done|].
  destruct (mainLoop_fuel_enough (splitLines text) (length (splitLines text))
              (startLoop s)) as [c Hc]; [simpl; lia|].
  rewrite Hc, (mainLoop_fuel_mono _ _ _ _ _ Hc Hfuel). done.
Qed.

(** ** The paragraph step *)

Lemma secondPass_paragraphPass (np : gmap nat bool) (pl : list str) :
  secondPass np pl = inlineStep <$> paragraphPass np pl.
Proof. unfold secondPass, paragraphPass. by rewrite fmap_imap. Qed.

Lemma wrapWithTag_has_lt (tag text : str) :
  indexOf (wrapWithTag tag text) (lit "<") = 0.
Proof. apply indexOf_startsWith. reflexivity. Qed.

Lemma paragraphStep_idem (np : gmap nat bool) (i : nat) (f : str) :
  paragraphStep np i (paragraphStep np i f) = paragraphStep np i f.
Proof.
  unfold paragraphStep at 2.
  destruct (negb (isNotAParagraph np i) && (indexOf f (lit "<") =? -1)) eqn:E.
  - unfold paragraphStep. rewrite wrapWithTag_has_lt.
    change (0 =? -1) with false. by rewrite andb_false_r, E.
  - unfold paragraphStep. by rewrite E.
Qed.

(** C9 — A fragment that already holds a [<] is left exactly as it is by the
    paragraph step (neither wrapped in [<p>] nor escaped again), and running
    the paragraph step twice over any fragment sequence gives what running it
    once gives. *)
Theorem C9_paragraph_step_idempotent (np : gmap nat bool) (i : nat) (f : str)
    (pl : list str) (Hlt : indexOf f (lit "<") <> -1) :
  paragraphStep np i f = f
  /\ paragraphPass np (paragraphPass np pl) = paragraphPass np pl.
Proof.
  split.
  - unfold paragraphStep. destruct (Z.eqb_spec (indexOf f (lit "<")) (-1)); [done|].
    by rewrite andb_false_r.
  - apply list_eq. intros j. unfold paragraphPass.
    rewrite !list_lookup_imap. destruct (pl !! j); simpl; [|done].
    by rewrite paragraphStep_idem.
Qed.

Lemma C9_witness :
  indexOf (lit "<br />") (lit "<") <> -1
  /\ paragraphStep ∅ 0 (lit "<br />") = lit "<br />"
  /\ paragraphPass ∅ (paragraphPass ∅ [lit "a < b"; lit "plain"])
     = paragraphPass ∅ [lit "a < b"; lit "plain"].
Proof.
  split; [vm_compute; discriminate|].
  apply (C9_paragraph_step_idempotent ∅ 0 (lit "<br />") [lit "a < b"; lit "plain"]).
  vm_compute. discriminate.
Defined.

(** ** Termination and the absence of an error result *)

(** C10 — [parseMarkdown] terminates on every string: each turn of the main
    loop returns with the line index [k] strictly larger (the handlers return
    the index they were given, and [k] becomes one past it), so one turn per
    raw line is enough fuel for the loop and for the whole function. *)
Theorem C10_parseMarkdown_terminates (s : State) (text : str) (c : loop_state)
    (Hk : (k c < length (splitLines text))%nat) :
  (exists c', loopBody (splitLines text) c = Ret c'
              /\ (k c < k c')%nat /\ k c' = S (k c))
  /\ (exists cf, mainLoop (length (splitLines text)) (splitLines text) (startLoop s)
                 = Ret cf)
  /\ (exists out s', forall fuel, (length (splitLines text) <= fuel)%nat ->
        parseMarkdownFuel fuel s (VString text) = Ret (out, s')).
Proof.
  split; [|split].
  - destruct (loopBody_ok _ c Hk) as (c' & Hc' & Hk'). exists c'. split; [done|]. lia.
  - apply mainLoop_fuel_enough. simpl. lia.
  - destruct (parseMarkdown_ok s (VString text)) as (out & s' & Hp).
    exists out, s'. intros fuel Hfuel. by rewrite parseMarkdownFuel_enough.
Qed.

Lemma C10_witness :
  (k (startLoop reset) < length (splitLines (lit "# a")))%nat
  /\ (exists c', loopBody (splitLines (lit "# a")) (startLoop reset) = Ret c'
                 /\ (k (startLoop reset) < k c')%nat /\ k c' = S (k (startLoop reset))).
Proof.
  split; [vm_compute; lia|].
  apply (C10_parseMarkdown_terminates reset (lit "# a") (startLoop reset)).
  vm_compute. lia.
Defined.

(** C6 — An input that is not a string, or is a string of white space only
    (the empty string included), gives the empty string and leaves the state
    as it was; and there is no error result at all: whatever the state and the
    input, [parseMarkdown] returns a string. *)
Theorem C6_blank_input_gives_empty (s : State) (v : value)
    (Hblank : typeof v <> lit "string"
              \/ exists text, v = VString text /\ forallb isWhiteSpace text = true) :
  parseMarkdown s v = Ret ([], s)
  /\ (forall s0 v0, exists out s', parseMarkdown s0 v0 = Ret (out, s')).
Proof.
  split; [|apply parseMarkdown_ok].
  destruct Hblank as [Hty | (text & -> & Hws)].
  - destruct v; done.
  - unfold parseMarkdown, parseMarkdownFuel. by rewrite (trim_blank _ Hws).
Qed.

Lemma C6_witness :
  (typeof (VString [32; 9; 13; 10; 32]%N) <> lit "string"
   \/ exists text, VString [32; 9; 13; 10; 32]%N = VString text
                   /\ forallb isWhiteSpace text = true)
  /\ parseMarkdown reset (VString [32; 9; 13; 10; 32]%N) = Ret ([], reset).
Proof.
  assert (H : typeof (VString [32; 9; 13; 10; 32]%N) <> lit "string"
              \/ exists text, VString [32; 9; 13; 10; 32]%N = VString text
                              /\ forallb isWhiteSpace text = true).
  { right. eexists. split; reflexivity. }
  split; [exact H|].
  apply (C6_blank_input_gives_empty reset (VString [32; 9; 13; 10; 32]%N) H).
Defined.

(** The short-circuit is the only path that skips the parse; it is not the
    only way to an empty output: a lone underline is parsed, finds nothing to
    rewrite and pushes nothing. *)
Remark lone_underline_gives_empty :
  parseMarkdown reset (VString (lit "===")) = Ret ([], reset).
Proof. vm_compute. reflexivity. Qed.

(** ** Leaving a blockquote *)

(** On a line that is not a blockquote line, met at a positive level, the
    close tags are pushed, one per level; the state comes back as it went
    in. *)
Lemma blockquoteStep_exit (s : State) (pl : list str) (line : str)
    (b : block) (m : matched_t) :
  b <> blockquote -> 0 < blockquoteLevel s ->
  blockquoteStep s pl line b m =
  Ret (s, pl ++ [repeat_nat (lit "</blockquote>") (Z.to_nat (blockquoteLevel s))],
       O, (b, m)).
Proof.
  intros Hb Hlevel. unfold blockquoteStep. case_decide; [done|].
  destruct (Z.gtb_spec (blockquoteLevel s) 0); [|lia].
  rewrite repeat_nonneg by lia. done.
Qed.

(** C1 — Evaluation at ["> a\nb"]: the second line is not a blockquote line
    and is met at level 1; the loop pushes one [</blockquote>] for it, and the
    state after the line still has [blockquoteLevel = 1], not 0.  With a third
    plain line the close tag is pushed again, and once more at the end. *)
Theorem C1_level_not_reset_on_exit :
  (exists c1 c2,
      loopBody [lit "> a"; lit "b"] (startLoop reset) = Ret c1
      /\ blockquoteLevel (state c1) = 1
      /\ loopBody [lit "> a"; lit "b"] c1 = Ret c2
      /\ parsed_lines c2 = [lit "<blockquote>"; lit "a"; lit "</blockquote>"; lit "b"]
      /\ blockquoteLevel (state c2) = 1)
  /\ parseMarkdown reset (VString (lit "> a" ++ [LF] ++ lit "b" ++ [LF] ++ lit "c"))
     = Ret (lit "<blockquote><p>a</p></blockquote><p>b</p></blockquote><p>c</p></blockquote>",
            set_blockquoteLevel reset 1).
Proof.
  split.
  - eexists _, _. split; [vm_compute; reflexivity|].
    split; [reflexivity|]. split; [vm_compute; reflexivity|].
    split; reflexivity.
  - vm_compute. reflexivity.
Qed.

(** C4 — Evaluation at ["> a\nb"] from a fresh state: the output has one
    [<blockquote>] and two [</blockquote>]. *)
Theorem C4_blockquote_tags_unbalanced :
  parseMarkdown reset (VString (lit "> a" ++ [LF] ++ lit "b"))
  = Ret (lit "<blockquote><p>a</p></blockquote><p>b</p></blockquote>",
         set_blockquoteLevel reset 1)
  /\ countOccurrences (lit "<blockquote>")
       (lit "<blockquote><p>a</p></blockquote><p>b</p></blockquote>") = 1%nat
  /\ countOccurrences (lit "</blockquote>")
       (lit "<blockquote><p>a</p></blockquote><p>b</p></blockquote>") = 2%nat.
Proof. split; [|split]; vm_compute; reflexivity. Qed.

(** ** Escaping *)

(** C3 — Evaluation of [escapeHTMLChars]: only the first [&], the first [<]
    and the first [>] are replaced; the same shows in the output for a line
    inside a fence and for a paragraph. *)
Theorem C3_escape_first_occurrence_only :
  escapeHTMLChars (lit "a<b<c") = lit "a&lt;b<c"
  /\ escapeHTMLChars (lit "x & y & z > 1 > 0") = lit "x &amp; y & z &gt; 1 > 0"
  /\ parseMarkdown reset (VString (lit "```" ++ [LF] ++ lit "a<b<c" ++ [LF] ++ lit "```"))
     = Ret (lit "<pre>a&lt;b<c" ++ [LF] ++ lit "</pre>", reset)
  /\ parseMarkdown reset (VString (lit "x & y & z"))
     = Ret (lit "<p>x &amp; y & z</p>", reset).
Proof. repeat split; vm_compute; reflexivity. Qed.

(** ** Inline rules *)

(** C8 — ["**bold**"] parses to [<p><strong>bold</strong></p>].  The rules
    are tried in the order [**], [__], [*], [_]; the two [strong] rules
    rewrite the span, after which neither [em] rule finds anything to match.
    Run on the unrewritten paragraph, the [em] rules would have taken
    [**bold*] for a span. *)
Theorem C8_bold :
  parseMarkdown reset (VString (lit "**bold**"))
  = Ret (lit "<p><strong>bold</strong></p>", reset)
  /\ map original INLINE = [lit "**"; lit "__"; lit "*"; lit "_"]
  /\ map tag INLINE = [lit "strong"; lit "strong"; lit "em"; lit "em"]
  /\ fold_left (fun cur r => applyRule r cur) (take 2 INLINE) (lit "<p>**bold**</p>")
     = lit "<p><strong>bold</strong></p>"
  /\ map (fun r => matchAll (matcher r) (lit "<p><strong>bold</strong></p>"))
       (drop 2 INLINE) = [[]; []]
  /\ fold_left (fun cur r => applyRule r cur) (drop 2 INLINE) (lit "<p>**bold**</p>")
     = lit "<p><em>*bold</em>*</p>".
Proof. repeat split; vm_compute; reflexivity. Qed.

(** ** The end of the document *)

Lemma parseMarkdown_unfold (s : State) (text : str) (c : loop_state) :
  trim text <> [] ->
  mainLoop (length (splitLines text)) (splitLines text) (startLoop s) = Ret c ->
  parseMarkdown s (VString text) =
  Ret (join (secondPass (not_a_paragraph c) (parsed_lines c)) ++ endOfDocument (state c),
       state c).
Proof.
  intros Hne Hloop. unfold parseMarkdown.
  rewrite (parseMarkdownFuel_unfold _ _ _ _ Hne Hloop).
  unfold join, endOfDocument. rewrite concat_app.
  destruct (blockquoteLevel (state c) >? 0); simpl; by rewrite ?app_nil_r.
Qed.

(** C7 — After the last line the output is the joined fragments followed by
    one [</blockquote>] per level still open; whether a code container is
    still open changes nothing, so no [</pre>] is supplied.  Evaluations:
    an open blockquote is closed, an open fence is not, and both at once show
    in one output. *)
Theorem C7_end_of_document (s : State) (text : str) (c : loop_state)
    (Htext : trim text <> [])
    (Hloop : mainLoop (length (splitLines text)) (splitLines text) (startLoop s) = Ret c) :
  parseMarkdown s (VString text)
  = Ret (join (secondPass (not_a_paragraph c) (parsed_lines c))
         ++ endOfDocument (state c), state c)
  /\ (0 < blockquoteLevel (state c) ->
      endOfDocument (state c)
      = repeat_nat (lit "</blockquote>") (Z.to_nat (blockquoteLevel (state c))))
  /\ (blockquoteLevel (state c) <= 0 -> endOfDocument (state c) = [])
  /\ (forall b, endOfDocument (set_insideCodeContainer (state c) b)
                = endOfDocument (state c))
  /\ parseMarkdown reset (VString (lit "> a"))
     = Ret (lit "<blockquote><p>a</p></blockquote>", set_blockquoteLevel reset 1)
  /\ parseMarkdown reset (VString (lit "```" ++ [LF] ++ lit "code"))
     = Ret (lit "<pre>code" ++ [LF], set_insideCodeContainer reset true)
  /\ parseMarkdown reset (VString (lit "> a" ++ [LF] ++ lit "```" ++ [LF] ++ lit "code"))
     = Ret (lit "<blockquote><p>a</p><pre>code" ++ [LF] ++ lit "</blockquote>",
            set_insideCodeContainer (set_blockquoteLevel reset 1) true).
Proof.
  split; [by apply parseMarkdown_unfold|].
  split.
  { intros H. unfold endOfDocument. destruct (Z.gtb_spec (blockquoteLevel (state c)) 0); [done|lia]. }
  split.
  { intros H. unfold endOfDocument. destruct (Z.gtb_spec (blockquoteLevel (state c)) 0); [lia|done]. }
  split; [done|].
  repeat split; vm_compute; reflexivity.
Qed.

Lemma C7_witness :
  trim (lit "> a" ++ [LF] ++ lit "```") <> []
  /\ parseMarkdown reset (VString (lit "> a" ++ [LF] ++ lit "```"))
     = Ret (lit "<blockquote><p>a</p><pre></blockquote>",
            set_insideCodeContainer (set_blockquoteLevel reset 1) true).
Proof.
  split; [vm_compute; discriminate|].
  destruct (mainLoop (length (splitLines (lit "> a" ++ [LF] ++ lit "```")))
              (splitLines (lit "> a" ++ [LF] ++ lit "```")) (startLoop reset))
    as [c| |] eqn:Hloop; [|vm_compute in Hloop; discriminate..].
  destruct (C7_end_of_document reset (lit "> a" ++ [LF] ++ lit "```") c) as [-> _].
  - vm_compute. discriminate.
  - exact Hloop.
  - vm_compute in Hloop. injection Hloop as <-. vm_compute. reflexivity.
Defined.

(** ** Setext headings *)

Lemma takeWhile_dropWhile (p : char -> bool) (s : str) :
  takeWhile p s ++ dropWhile p s = s.
Proof.
  induction s as [|c s IH]; simpl; [done|].
  destruct (p c); simpl; [by rewrite IH | done].
Qed.

Lemma takeWhile_Forall (p : char -> bool) (s : str) :
  Forall (fun c => p c = true) (takeWhile p s).
Proof.
  induction s as [|c s IH]; simpl; [constructor|].
  destruct (p c) eqn:E; constructor; done.
Qed.

(** An underline of [c] starts with [c] and holds nothing but [c] and white
    space; the match is the whole string. *)
Lemma match_underline_Some (c : char) (s m : str) :
  match_underline c s = Some m ->
  m = s /\ startsWith [c] s = true
  /\ Forall (fun d => d = c \/ isWhiteSpace d = true) s.
Proof.
  unfold match_underline.
  destruct (takeWhile (isChar c) s) as [|d run] eqn:Hrun; [done|].
  destruct (forallb isWhiteSpace (dropWhile (isChar c) s)) eqn:Hws; [|done].
  intros [= <-]. split; [done|].
  pose proof (takeWhile_Forall (isChar c) s) as Hall. rewrite Hrun in Hall.
  rewrite <- (takeWhile_dropWhile (isChar c) s). rewrite Hrun. split.
  - apply Forall_cons_1 in Hall as [Hd _]. unfold isChar in Hd.
    simpl. by rewrite Hd.
  - apply Forall_app. split.
    + eapply Forall_impl; [exact Hall|]. intros x Hx. left.
      unfold isChar in Hx. symmetry. by apply N.eqb_eq.
    + apply Forall_forall. intros x Hx. right.
      rewrite forallb_forall in Hws. apply Hws. by apply list_elem_of_In.
Qed.

(** A line classified as a setext heading is an underline of [=] or of [-]. *)
Lemma getBlockInfo_setext (line : str) (pos : nat) (m : str) :
  getBlockInfo line pos = (setext_heading, MString m) ->
  match_setext (substring line pos) = Some m.
Proof.
  unfold getBlockInfo. destruct (isEmpty _); [done|]. simpl.
  destruct (match_code_marker _); [done|].
  destruct (match_atx _); [done|].
  destruct (match_setext _); [congruence|].
  by destruct (match_blockquote _).
Qed.

(** The tag the handler picks, read off the underline's first unit. *)
Lemma setext_tag (s m : str) :
  match_setext s = Some m ->
  (startsWith [EQUALS] m = true \/ startsWith [MINUS] m = true)
  /\ (if indexOf m (lit "=") >? -1 then lit "h1" else lit "h2")
     = (if startsWith [EQUALS] m then lit "h1" else lit "h2").
Proof.
  unfold match_setext. destruct (match_underline EQUALS s) as [m'|] eqn:Heq.
  - intros [= ->]. apply match_underline_Some in Heq as (-> & Hstart & _).
    split; [by left|]. rewrite Hstart.
    change (lit "=") with [EQUALS]. by rewrite (indexOf_startsWith _ _ Hstart).
  - intros Hminus. apply match_underline_Some in Hminus as (-> & Hstart & Hall).
    split; [by right|].
    assert (Hno : EQUALS ∉ s).
    { intros Hin. rewrite Forall_forall in Hall.
      destruct (Hall _ Hin) as [H|H]; [done | by vm_compute in H]. }
    assert (Hstart' : startsWith [EQUALS] s = false).
    { destruct s as [|d s]; [done|]. cbn [startsWith].
      destruct (N.eqb_spec EQUALS d) as [<-|]; [|done].
      exfalso. apply Hno. left. }
    change (lit "=") with [EQUALS]. apply indexOf_absent in Hno as ->.
    by rewrite Hstart'.
Qed.

(** The handler itself: nothing to rewrite, or the last fragment rewritten in
    place; in both cases it returns [undefined]. *)
Lemma parse_setext_nil (raw_lines : list str) (i pos : nat) (m : str) :
  parse setext_heading raw_lines i pos [] (MString m) = Ret ([], None).
Proof. reflexivity. Qed.

Lemma parse_setext_last (raw_lines : list str) (i pos : nat) (m : str)
    (init : list str) (last : str) :
  parse setext_heading raw_lines i pos (init ++ [last]) (MString m)
  = Ret (init ++ [wrapWithTag (if indexOf m (lit "=") >? -1 then lit "h1" else lit "h2")
                    last], None).
Proof.
  simpl. rewrite length_app. simpl.
  replace (length init + 1 - 1)%nat with (length init + 0)%nat by lia.
  destruct (Nat.ltb_spec 0 (length init + 1)); [|lia].
  rewrite lookup_app_r by lia.
  replace (length init + 0 - length init)%nat with 0%nat by lia. simpl.
  by rewrite insert_app_r.
Qed.

(** Text free of [&], [<] and [>] is wrapped as it stands. *)
Lemma findFirst_absent (c : char) (s : str) : c ∉ s -> findFirst [c] s = None.
Proof.
  induction s as [|d s IH]; [done|].
  intros [Hd Hs]%not_elem_of_cons. simpl.
  destruct (N.eqb_spec c d); [done|]. simpl. by rewrite IH.
Qed.

Lemma replace_absent (c : char) (s r : str) : c ∉ s -> JS.replace s [c] r = s.
Proof. intros H. unfold JS.replace. by rewrite findFirst_absent. Qed.

Lemma wrapWithTag_plain (tag text : str) :
  38%N ∉ text -> 60%N ∉ text -> 62%N ∉ text ->
  wrapWithTag tag text = lit "<" ++ tag ++ lit ">" ++ text ++ lit "</" ++ tag ++ lit ">".
Proof.
  intros Hamp Hlt Hgt. unfold wrapWithTag, escapeHTMLChars. simpl.
  change (lit "&") with [38%N]. change (lit "<") with [60%N].
  change (lit ">") with [62%N].
  by rewrite (replace_absent _ _ _ Hamp), (replace_absent _ _ _ Hlt),
       (replace_absent _ _ _ Hgt).
Qed.

(** A setext line met outside a fence and outside a blockquote: the turn of
    the loop is the handler's call and nothing else. *)
Lemma loopBody_setext (raw_lines : list str) (c : loop_state) (raw m : str) :
  raw_lines !! k c = Some raw ->
  insideCodeContainer (state c) = false ->
  blockquoteLevel (state c) <= 0 ->
  getBlockInfo (trimEnd raw) 0 = (setext_heading, MString m) ->
  exists pl', parse setext_heading raw_lines (k c) 0 (parsed_lines c) (MString m)
              = Ret (pl', None)
    /\ loopBody raw_lines c
       = Ret {| state := state c; not_a_paragraph := not_a_paragraph c;
                parsed_lines := pl'; k := S (k c) |}.
Proof.
  intros Hline Hfence Hlevel Hclass.
  destruct (parse_ok setext_heading raw_lines (k c) 0 (parsed_lines c) (MString m))
    as (pl' & r & Hparse & _); [done | by eapply lookup_lt_Some |].
  assert (r = None) as ->.
  { simpl in Hparse. destruct (0 <? length (parsed_lines c))%nat;
      [destruct (parsed_lines c !! _)|]; congruence. }
  exists pl'. split; [done|].
  unfold loopBody, lineAt. rewrite Hline. cbn [mbind res_bind].
  rewrite Hclass. case_decide; [done|]. rewrite Hfence.
  unfold blockquoteStep. case_decide; [done|].
  destruct (Z.gtb_spec (blockquoteLevel (state c)) 0); [lia|].
  cbn [mbind res_bind]. rewrite Hparse. done.
Qed.

(** A blockquote line of the depth already open whose remainder is an
    underline: the blockquote step pushes nothing, and the turn is again the
    handler's call and nothing else. *)
Lemma loopBody_setext_quoted (raw_lines : list str) (c : loop_state) (raw q m : str) :
  raw_lines !! k c = Some raw ->
  insideCodeContainer (state c) = false ->
  getBlockInfo (trimEnd raw) 0 = (blockquote, MString q) ->
  Z.of_nat (length (trim q)) = blockquoteLevel (state c) ->
  getBlockInfo (trimEnd raw) (length q) = (setext_heading, MString m) ->
  exists pl', parse setext_heading raw_lines (k c) 0 (parsed_lines c) (MString m)
              = Ret (pl', None)
    /\ loopBody raw_lines c
       = Ret {| state := state c; not_a_paragraph := not_a_paragraph c;
                parsed_lines := pl'; k := S (k c) |}.
Proof.
  intros Hline Hfence Hquote Hdepth Hclass.
  destruct (parse_ok setext_heading raw_lines (k c) 0 (parsed_lines c) (MString m))
    as (pl' & r & Hparse & _); [done | by eapply lookup_lt_Some |].
  assert (r = None) as ->.
  { simpl in Hparse. destruct (0 <? length (parsed_lines c))%nat;
      [destruct (parsed_lines c !! _)|]; congruence. }
  exists pl'. split; [done|].
  unfold loopBody, lineAt. rewrite Hline. cbn [mbind res_bind].
  rewrite Hquote. case_decide; [done|]. rewrite Hfence.
  unfold blockquoteStep. case_decide; [|done].
  cbn [asString mbind res_bind]. rewrite Hdepth, Z.sub_diag.
  cbn [Z.eqb negb mbind res_bind]. rewrite Hclass.
  change (parse setext_heading raw_lines (k c) (length q) (parsed_lines c) (MString m))
    with (parse setext_heading raw_lines (k c) 0 (parsed_lines c) (MString m)).
  rewrite Hparse. done.
Qed.

(** Either way the turn is the handler's call on the fragments as they
    stand. *)
Lemma loopBody_setextOnly (raw_lines : list str) (c : loop_state) (raw m : str) :
  raw_lines !! k c = Some raw ->
  insideCodeContainer (state c) = false ->
  setextOnly (state c) (trimEnd raw) m ->
  (exists pos, getBlockInfo (trimEnd raw) pos = (setext_heading, MString m))
  /\ exists pl', parse setext_heading raw_lines (k c) 0 (parsed_lines c) (MString m)
                 = Ret (pl', None)
       /\ loopBody raw_lines c
          = Ret {| state := state c; not_a_paragraph := not_a_paragraph c;
                   parsed_lines := pl'; k := S (k c) |}.
Proof.
  intros Hline Hfence [[Hclass Hlevel] | (q & Hquote & Hdepth & Hclass)].
  - split; [by eexists|].
    exact (loopBody_setext _ _ _ _ Hline Hfence Hlevel Hclass).
  - split; [by eexists|].
    exact (loopBody_setext_quoted _ _ _ _ _ Hline Hfence Hquote Hdepth Hclass).
Qed.

(** C5 — A line that goes to the setext handler outside a fence, on which
    the blockquote step pushes nothing (an underline met at blockquote level
    0, or a blockquote line of the depth already open whose remainder is an
    underline), pushes no fragment: with nothing emitted before it the line
    adds nothing, otherwise the last emitted fragment is replaced, in place,
    by [wrapWithTag] of it, that is its text after [escapeHTMLChars] between
    the tags, the text as it stands when it has no [&], [<] or [>]; the tag is
    [h1] when the underline is made of [=] and [h2] when it is made of [-];
    the state is left alone; ["Title\n====="] parses to [<h1>Title</h1>]. *)
Theorem C5_setext_heading (raw_lines : list str) (c : loop_state) (raw m : str)
    (Hline : raw_lines !! k c = Some raw)
    (Hfence : insideCodeContainer (state c) = false)
    (Hquiet : setextOnly (state c) (trimEnd raw) m) :
  let tag := if startsWith [EQUALS] m then lit "h1" else lit "h2" in
  (startsWith [EQUALS] m = true \/ startsWith [MINUS] m = true)
  /\ (exists c', loopBody raw_lines c = Ret c'
        /\ length (parsed_lines c') = length (parsed_lines c)
        /\ state c' = state c /\ k c' = S (k c)
        /\ (parsed_lines c = [] -> parsed_lines c' = [])
        /\ (forall init last, parsed_lines c = init ++ [last] ->
              parsed_lines c' = init ++ [wrapWithTag tag last]
              /\ wrapWithTag tag last
                 = lit "<" ++ tag ++ lit ">" ++ escapeHTMLChars last
                   ++ lit "</" ++ tag ++ lit ">"
              /\ (AMP ∉ last -> LT ∉ last -> GT ∉ last ->
                  parsed_lines c'
                  = init ++ [lit "<" ++ tag ++ lit ">" ++ last
                             ++ lit "</" ++ tag ++ lit ">"])))
  /\ parseMarkdown reset (VString (lit "Title" ++ [LF] ++ lit "====="))
     = Ret (lit "<h1>Title</h1>", reset).
Proof.
  intros tag.
  destruct (loopBody_setextOnly raw_lines c raw m Hline Hfence Hquiet)
    as ([pos Hclass] & pl' & Hparse & Hbody).
  destruct (setext_tag _ _ (getBlockInfo_setext _ _ _ Hclass)) as [Hchar Htag].
  split; [done|]. split; [|vm_compute; reflexivity].
  eexists. split; [exact Hbody|]. cbn [parsed_lines state k].
  destruct (parsed_lines c) as [|x pl] eqn:Hpl using rev_ind.
  - rewrite parse_setext_nil in Hparse. injection Hparse as <-.
    do 4 (split; [done|]). intros init last H. by destruct init.
  - clear IHpl. rewrite parse_setext_last, Htag in Hparse. injection Hparse as <-.
    split; [by rewrite !length_app|]. do 2 (split; [done|]).
    split; [intros H; by destruct pl|].
    intros init last [-> ->]%app_inj_tail.
    split; [done|]. split; [done|]. intros Hamp Hlt Hgt.
    by rewrite (wrapWithTag_plain _ _ Hamp Hlt Hgt).
Qed.

Lemma C5_witness :
  (setextOnly reset (trimEnd (lit "=====")) (lit "=====")
   /\ exists c', loopBody [lit "Title"; lit "====="]
                   {| state := reset; not_a_paragraph := ∅;
                      parsed_lines := [lit "Title"]; k := 1 |} = Ret c'
        /\ parsed_lines c' = [lit "<h1>Title</h1>"]
        /\ state c' = reset /\ k c' = 2%nat)
  /\ (setextOnly (set_blockquoteLevel reset 1) (trimEnd (lit "> ---")) (lit "---")
      /\ exists c', loopBody [lit "> a"; lit "> ---"]
                      {| state := set_blockquoteLevel reset 1; not_a_paragraph := ∅;
                         parsed_lines := [lit "<blockquote>"; lit "a"]; k := 1 |}
                    = Ret c'
           /\ parsed_lines c' = [lit "<blockquote>"; lit "<h2>a</h2>"]
           /\ state c' = set_blockquoteLevel reset 1 /\ k c' = 2%nat).
Proof.
  assert (H1 : setextOnly reset (trimEnd (lit "=====")) (lit "====="))
    by (left; split; [vm_compute; reflexivity | vm_compute; discriminate]).
  assert (H2 : setextOnly (set_blockquoteLevel reset 1) (trimEnd (lit "> ---")) (lit "---"))
    by (right; exists (lit "> "); repeat split; vm_compute; reflexivity).
  split; (split; [done|]).
  - destruct (proj1 (proj2 (C5_setext_heading [lit "Title"; lit "====="]
                              {| state := reset; not_a_paragraph := ∅;
                                 parsed_lines := [lit "Title"]; k := 1 |}
                              (lit "=====") (lit "=====") eq_refl eq_refl H1)))
      as (c' & Hbody & _ & Hstate & Hk & _ & Hlast).
    exists c'. repeat split; try done.
    by destruct (Hlast [] (lit "Title") eq_refl) as [-> _].
  - destruct (proj1 (proj2 (C5_setext_heading [lit "> a"; lit "> ---"]
                              {| state := set_blockquoteLevel reset 1;
                                 not_a_paragraph := ∅;
                                 parsed_lines := [lit "<blockquote>"; lit "a"]; k := 1 |}
                              (lit "> ---") (lit "---") eq_refl eq_refl H2)))
      as (c' & Hbody & _ & Hstate & Hk & _ & Hlast).
    exists c'. repeat split; try done.
    by destruct (Hlast [lit "<blockquote>"] (lit "a") eq_refl) as [-> _].
Defined.

(** C5 (as stated) fails — In ["> a\n---"] the second line is classified a
    setext heading, yet its turn pushes a fragment, the close tag of the
    blockquote, and it is that fragment the handler wraps while the fragment
    emitted before the line, [a], stays as it was.  And in ["a<b\n==="],
    where nothing is pushed, the fragment [a<b] is not wrapped as it stands:
    its [<] is escaped. *)
Lemma C5_counterexample :
  (exists c1 c2,
     loopBody [lit "> a"; lit "---"] (startLoop reset) = Ret c1
     /\ parsed_lines c1 = [lit "<blockquote>"; lit "a"]
     /\ insideCodeContainer (state c1) = false
     /\ getBlockInfo (trimEnd (lit "---")) 0 = (setext_heading, MString (lit "---"))
     /\ loopBody [lit "> a"; lit "---"] c1 = Ret c2
     /\ parsed_lines c2
        = [lit "<blockquote>"; lit "a"; lit "<h2>&lt;/blockquote&gt;</h2>"]
     /\ length (parsed_lines c2) <> length (parsed_lines c1)
     /\ parseMarkdown reset (VString (lit "> a" ++ [LF] ++ lit "---"))
        = Ret (lit "<blockquote><p>a</p><h2>&lt;/blockquote&gt;</h2></blockquote>",
               set_blockquoteLevel reset 1))
  /\ (exists c1 c2,
        loopBody [lit "a<b"; lit "==="] (startLoop reset) = Ret c1
        /\ parsed_lines c1 = [lit "a<b"]
        /\ setextOnly (state c1) (trimEnd (lit "===")) (lit "===")
        /\ loopBody [lit "a<b"; lit "==="] c1 = Ret c2
        /\ parsed_lines c2 = [lit "<h1>a&lt;b</h1>"]
        /\ parsed_lines c2 <> [lit "<h1>" ++ lit "a<b" ++ lit "</h1>"]
        /\ parseMarkdown reset (VString (lit "a<b" ++ [LF] ++ lit "==="))
           = Ret (lit "<h1>a&lt;b</h1>", reset)).
Proof.
  split.
  - eexists _, _. split; [vm_compute; reflexivity|].
    repeat split; try (vm_compute; reflexivity). vm_compute. discriminate.
  - eexists _, _. split; [vm_compute; reflexivity|].
    split; [vm_compute; reflexivity|].
    split; [left; split; [vm_compute; reflexivity | vm_compute; discriminate]|].
    repeat split; try (vm_compute; reflexivity). vm_compute. discriminate.
Qed.

(** ** Fragments of a fence interior

    Once pushed, a fence-interior fragment is never touched again by the
    loop: the only rewriting of an earlier fragment is the setext handler's,
    it rewrites the last fragment, and it runs outside a fence only, when the
    last fragment is a later one. *)

Lemma blockquoteStep_extends (s : State) (pl : list str) (line : str)
    (b : block) (m : matched_t) (s1 : State) (pl1 : list str) (off : nat)
    (bm : block * matched_t) :
  blockquoteStep s pl line b m = Ret (s1, pl1, off, bm) ->
  exists ext, pl1 = pl ++ ext.
Proof.
  unfold blockquoteStep. case_decide.
  - destruct m as [t|]; [|done]. cbn [asString mbind res_bind].
    destruct (negb _).
    + destruct (JS.repeat _ _) as [x| |]; cbn [mbind res_bind]; [|done..].
      intros [= <- <- <- <-]. eauto.
    + cbn [mbind res_bind]. intros [= <- <- <- <-]. exists []. by rewrite app_nil_r.
  - destruct (blockquoteLevel s >? 0).
    + destruct (JS.repeat _ _) as [x| |]; cbn [mbind res_bind]; [|done..].
      intros [= <- <- <- <-]. eauto.
    + intros [= <- <- <- <-]. exists []. by rewrite app_nil_r.
Qed.

Lemma parse_keeps_prefix (b : block) (raw_lines : list str) (i pos : nat)
    (p rest : list str) (m : matched_t) (pl2 : list str) (r : option (str * nat)) :
  rest <> [] ->
  parse b raw_lines i pos (p ++ rest) m = Ret (pl2, r) ->
  exists rest2, pl2 = p ++ rest2 /\ rest2 <> [].
Proof.
  intros Hrest. destruct b; cbn [parse].
  - intros [= <- <-]. eauto.
  - intros [= <- <-]. eauto.
  - intros [= <- <-]. eauto.
  - destruct m as [t|]; [|done]. cbn [asString mbind res_bind].
    destruct (lineAt raw_lines i); cbn [mbind res_bind]; [|done..].
    intros [= <- <-]. eauto.
  - destruct m as [t|]; [|done]. cbn [asString mbind res_bind].
    destruct (0 <? length (p ++ rest))%nat.
    + destruct ((p ++ rest) !! _) as [prev|]; [|done]. intros [= <- <-].
      assert (0 < length rest)%nat by (destruct rest; [done | simpl; lia]).
      rewrite length_app.
      replace (length p + length rest - 1)%nat
        with (length p + (length rest - 1))%nat by lia.
      rewrite insert_app_r. eexists. split; [done|].
      intros Hnil%(f_equal length). rewrite length_insert in Hnil. simpl in Hnil. lia.
    + intros [= <- <-]. eauto.
  - destruct (lineAt raw_lines i); cbn [mbind res_bind]; [|done..].
    intros [= <- <-]. eauto.
Qed.

Lemma loopBody_fragmentKept (raw_lines p : list str) (n : nat) (c c' : loop_state) :
  fragmentKept p n c -> loopBody raw_lines c = Ret c' -> fragmentKept p n c'.
Proof.
  intros [(rest & Hpl & Hlast) Hflag]. unfold loopBody.
  destruct (lineAt raw_lines (k c)) as [raw| |]; cbn [mbind res_bind]; [|done..].
  destruct (getBlockInfo (trimEnd raw) 0) as [b m]. case_decide.
  { intros [= <-]. split; [|done]. cbn [parsed_lines state].
    eexists (rest ++ [_]). split; [by rewrite Hpl, app_assoc|].
    intros H0. by destruct rest. }
  destruct (insideCodeContainer (state c)) eqn:Hfence.
  { intros [= <-]. split; cbn [parsed_lines state not_a_paragraph].
    - eexists (rest ++ [_]). split; [by rewrite Hpl, app_assoc | done].
    - unfold isNotAParagraph in *.
      destruct (decide ((length (parsed_lines c ++ [escapeHTMLChars raw ++ [LF]]) - 1)%nat = n))
        as [->|Hne]; [by rewrite lookup_insert_eq | by rewrite lookup_insert_ne]. }
  assert (Hrest : rest <> []) by (intros H0; by specialize (Hlast H0)).
  destruct (blockquoteStep _ _ _ _ _) as [[[[s1 pl1] off] [b1 m1]]| |] eqn:Hbq;
    cbn [mbind res_bind]; [|done..].
  apply blockquoteStep_extends in Hbq as [ext ->]. rewrite Hpl, <- app_assoc.
  destruct (parse _ _ _ _ _ _) as [[pl2 r]| |] eqn:Hparse; cbn [mbind res_bind]; [|done..].
  apply parse_keeps_prefix in Hparse as (rest2 & -> & Hrest2);
    [|by destruct rest].
  destruct r as [[t last]|]; intros [= <-]; (split; [|done]);
    cbn [parsed_lines state].
  - eexists (rest2 ++ [t]). split; [by rewrite app_assoc|]. by destruct rest2.
  - by exists rest2.
Qed.

Lemma mainLoop_fragmentKept (raw_lines p : list str) (n fuel : nat) (c c' : loop_state) :
  fragmentKept p n c -> mainLoop fuel raw_lines c = Ret c' -> fragmentKept p n c'.
Proof.
  apply (mainLoop_invariant raw_lines (fragmentKept p n)).
  intros c0 c1 H0 _. by apply loopBody_fragmentKept.
Qed.

(** ** Inline rules on text without their delimiter *)

Lemma scan_absent (D : str) (c : char) (s : str) (skip : nat) (prev : option char) :
  c ∉ s -> scan (c :: D) skip prev s = [].
Proof.
  revert skip prev. induction s as [|d s IH]; intros skip prev Hc; [done|].
  apply not_elem_of_cons in Hc as [Hd Hs]. cbn [scan].
  destruct skip; [|by apply IH].
  unfold exec_at. cbn [startsWith].
  destruct (N.eqb_spec c d); [done|].
  rewrite andb_false_r. by apply IH.
Qed.

Lemma applyRule_absent (r : inline_rule) (f : str) :
  delim_count (matcher r) <> O -> delim_char (matcher r) ∉ f -> applyRule r f = f.
Proof.
  intros Hcount Hchar. unfold applyRule, matchAll, delimiter.
  destruct (delim_count (matcher r)) as [|n]; [done|]. cbn [List.repeat].
  by rewrite scan_absent.
Qed.

Lemma inlineStep_absent (f : str) : STAR ∉ f -> UNDERSCORE ∉ f -> inlineStep f = f.
Proof.
  intros Hstar Hunder. unfold inlineStep, INLINE. cbn [fold_left].
  repeat (rewrite (applyRule_absent _ f) by (cbn; done)). done.
Qed.

(** On a line inside a fence that is not a marker, the turn of the loop
    pushes the escaped raw line with a line feed and flags its index. *)
Lemma loopBody_fence_interior (raw_lines : list str) (c : loop_state) (raw : str) :
  raw_lines !! k c = Some raw ->
  insideCodeContainer (state c) = true ->
  (getBlockInfo (trimEnd raw) 0).1 <> code_container_marker ->
  loopBody raw_lines c
  = Ret {| state := state c;
           not_a_paragraph := <[length (parsed_lines c) := true]> (not_a_paragraph c);
           parsed_lines := parsed_lines c ++ [escapeHTMLChars raw ++ [LF]];
           k := S (k c) |}.
Proof.
  intros Hline Hfence Hmark. unfold loopBody, lineAt. rewrite Hline.
  cbn [mbind res_bind]. destruct (getBlockInfo (trimEnd raw) 0) as [b m].
  case_decide; [done|]. rewrite Hfence, length_app. cbn [length].
  by replace (length (parsed_lines c) + 1 - 1)%nat with (length (parsed_lines c)) by lia.
Qed.

(** From any state of the loop: the fragment pushed for a fence-interior line
    stays where it is and as it is to the end of the loop, and the second pass
    gives [inlineStep] of it. *)
Lemma fence_interior_fragment (raw_lines : list str) (c cf : loop_state)
    (raw : str) (fuel : nat)
    (Hline : raw_lines !! k c = Some raw)
    (Hfence : insideCodeContainer (state c) = true)
    (Hmark : (getBlockInfo (trimEnd raw) 0).1 <> code_container_marker)
    (Hloop : mainLoop (S fuel) raw_lines c = Ret cf) :
  let n := length (parsed_lines c) in
  let f := escapeHTMLChars raw ++ [LF] in
  let out := secondPass (not_a_paragraph cf) (parsed_lines cf) in
  (exists c1, loopBody raw_lines c = Ret c1
              /\ parsed_lines c1 = parsed_lines c ++ [f]
              /\ mainLoop fuel raw_lines c1 = Ret cf)
  /\ parsed_lines cf !! n = Some f
  /\ paragraphStep (not_a_paragraph cf) n f = f
  /\ out !! n = Some (inlineStep f)
  /\ join out = join (take n out) ++ inlineStep f ++ join (drop (S n) out)
  /\ (STAR ∉ f -> UNDERSCORE ∉ f -> out !! n = Some f).
Proof.
  intros n f out.
  pose proof (loopBody_fence_interior raw_lines c raw Hline Hfence Hmark) as Hbody.
  cbn [mainLoop] in Hloop.
  destruct (Nat.ltb_spec (k c) (length raw_lines)) as [_|Hk];
    [|apply lookup_lt_Some in Hline; lia].
  rewrite Hbody in Hloop. cbn [mbind res_bind] in Hloop.
  assert (Hkept : fragmentKept (parsed_lines c ++ [f]) n cf).
  { eapply mainLoop_fragmentKept; [|exact Hloop]. split.
    - exists []. cbn [parsed_lines state]. by rewrite app_nil_r.
    - cbn [not_a_paragraph]. unfold isNotAParagraph. by rewrite lookup_insert_eq. }
  destruct Hkept as [(rest & Hpl & _) Hflag].
  assert (Hfrag : parsed_lines cf !! n = Some f).
  { rewrite Hpl, <- app_assoc. apply list_lookup_middle. done. }
  assert (Hpar : paragraphStep (not_a_paragraph cf) n f = f).
  { unfold paragraphStep. by rewrite Hflag. }
  assert (Hout : out !! n = Some (inlineStep f)).
  { unfold out, secondPass. apply list_lookup_imap_Some.
    exists f. split; [exact Hfrag | by rewrite Hpar]. }
  split; [eexists; split; [exact Hbody | done]|].
  split; [done|]. split; [done|]. split; [done|]. split.
  - rewrite <- (take_drop_middle out n (inlineStep f) Hout) at 1.
    unfold join. rewrite concat_app. done.
  - intros Hstar Hunder. rewrite inlineStep_absent in Hout by done. exact Hout.
Qed.

(** C2 (as amended) — In every document, for every line reached inside an
    open fence that is not a fence marker: its fragment is the escaped raw
    line followed by a line feed; the loop never touches it again, and the
    second pass never wraps it in a paragraph.  The inline rules are applied
    to it as to any other fragment, so what the output holds at its place is
    [inlineStep] of it: the fragment itself whenever it holds neither [*] nor
    [_]. *)
Theorem C2_fence_interior_fragment (s : State) (text raw : str) (i : nat)
    (c : loop_state)
    (Htext : trim text <> [])
    (Hline : splitLines text !! i = Some raw)
    (Hturns : turns i (splitLines text) (startLoop s) = Ret c)
    (Hfence : insideCodeContainer (state c) = true)
    (Hmark : (getBlockInfo (trimEnd raw) 0).1 <> code_container_marker) :
  let n := length (parsed_lines c) in
  let f := escapeHTMLChars raw ++ [LF] in
  exists cf,
    mainLoop (length (splitLines text)) (splitLines text) (startLoop s) = Ret cf
    /\ parsed_lines cf !! n = Some f
    /\ paragraphStep (not_a_paragraph cf) n f = f
    /\ secondPass (not_a_paragraph cf) (parsed_lines cf) !! n = Some (inlineStep f)
    /\ parseMarkdown s (VString text)
       = Ret (join (take n (secondPass (not_a_paragraph cf) (parsed_lines cf)))
              ++ inlineStep f
              ++ join (drop (S n) (secondPass (not_a_paragraph cf) (parsed_lines cf)))
              ++ endOfDocument (state cf), state cf)
    /\ (STAR ∉ f -> UNDERSCORE ∉ f ->
        secondPass (not_a_paragraph cf) (parsed_lines cf) !! n = Some f).
Proof.
  intros n f.
  pose proof (lookup_lt_Some _ _ _ Hline) as Hi.
  assert (Hk : k c = i).
  { apply turns_k in Hturns; [exact Hturns | simpl; lia]. }
  destruct (mainLoop_fuel_enough (splitLines text) (length (splitLines text))
              (startLoop s)) as [cf Hcf]; [simpl; lia|].
  exists cf. split; [done|].
  assert (Hrest : mainLoop (S (length (splitLines text) - S i)) (splitLines text) c = Ret cf).
  { rewrite <- (mainLoop_turns _ i _ _ _ Hturns) by (simpl; lia).
    rewrite <- Hcf. f_equal. lia. }
  rewrite <- Hk in Hline.
  destruct (fence_interior_fragment _ c cf raw _ Hline Hfence Hmark Hrest)
    as (_ & Hfrag & Hpar & Hout & Hjoin & Hplain).
  split; [done|]. split; [done|]. split; [done|]. split; [|done].
  rewrite (parseMarkdown_unfold _ _ _ Htext Hcf). fold n f. rewrite Hjoin.
  by rewrite <- !app_assoc.
Qed.

Lemma C2_witness :
  trim (lit "```" ++ [LF] ++ lit "a < b") <> []
  /\ exists cf,
      mainLoop 2 [lit "```"; lit "a < b"] (startLoop reset) = Ret cf
      /\ secondPass (not_a_paragraph cf) (parsed_lines cf) !! 1%nat
         = Some (escapeHTMLChars (lit "a < b") ++ [LF]).
Proof.
  split; [vm_compute; discriminate|].
  destruct (C2_fence_interior_fragment reset (lit "```" ++ [LF] ++ lit "a < b")
              (lit "a < b") 1
              {| state := set_insideCodeContainer reset true; not_a_paragraph := ∅;
                 parsed_lines := [lit "<pre>"]; k := 1 |})
    as (cf & Hcf & _ & _ & _ & _ & Hplain).
  - vm_compute. discriminate.
  - reflexivity.
  - reflexivity.
  - reflexivity.
  - vm_compute. discriminate.
  - exists cf. split; [exact Hcf|]. apply Hplain.
    + vm_compute. intros H. by repeat (apply elem_of_cons in H as [H|H]; [discriminate|]);
        apply elem_of_nil in H.
    + vm_compute. intros H. by repeat (apply elem_of_cons in H as [H|H]; [discriminate|]);
        apply elem_of_nil in H.
Defined.

(** C2 (as stated) fails — Inside a fence, the line [*a*] is emitted as
    [*a*] plus a line feed and flagged, yet the second pass rewrites it to
    [<em>a</em>]: it does not reach the output as emitted. *)
Lemma C2_counterexample :
  exists cf,
    mainLoop 3 [lit "```"; lit "*a*"; lit "```"] (startLoop reset) = Ret cf
    /\ parsed_lines cf !! 1%nat = Some (lit "*a*" ++ [LF])
    /\ isNotAParagraph (not_a_paragraph cf) 1 = true
    /\ secondPass (not_a_paragraph cf) (parsed_lines cf) !! 1%nat
       = Some (lit "<em>a</em>" ++ [LF])
    /\ secondPass (not_a_paragraph cf) (parsed_lines cf) !! 1%nat
       <> parsed_lines cf !! 1%nat
    /\ parseMarkdown reset (VString (lit "```" ++ [LF] ++ lit "*a*" ++ [LF] ++ lit "```"))
       = Ret (lit "<pre><em>a</em>" ++ [LF] ++ lit "</pre>", reset).
Proof.
  eexists. split; [vm_compute; reflexivity|].
  repeat split; try (vm_compute; reflexivity). vm_compute. discriminate.
Qed.

(** * Further properties of the helpers and of the loop *)

(** ** More on strings *)

Lemma startsWith_prefix (p s : str) : startsWith p s = true <-> p `prefix_of` s.
Proof.
  revert s. induction p as [|c p IH]; intros s; simpl.
  - split; [intros _; apply prefix_nil | done].
  - destruct s as [|d s]; [split; [done | intros H; by apply prefix_nil_not in H]|].
    rewrite andb_true_iff, IH, N.eqb_eq. split.
    + intros [-> H]. by apply prefix_cons.
    + intros H. split; [by apply prefix_cons_inv_1 in H | by apply prefix_cons_inv_2 in H].
Qed.

Lemma dropWhile_nil (p : char -> bool) (s : str) :
  dropWhile p s = [] <-> forallb p s = true.
Proof.
  split; [|apply dropWhile_all].
  induction s as [|c s IH]; simpl; [done|]. destruct (p c); [done | discriminate].
Qed.

Lemma dropWhile_app_all (p : char -> bool) (a b : str) :
  forallb p a = true -> dropWhile p (a ++ b) = dropWhile p b.
Proof.
  induction a as [|c a IH]; simpl; [done|].
  intros [-> H]%andb_true_iff. auto.
Qed.

Lemma takeWhile_app_all (p : char -> bool) (a b : str) :
  forallb p a = true -> takeWhile p (a ++ b) = a ++ takeWhile p b.
Proof.
  induction a as [|c a IH]; simpl; [done|].
  intros [-> H]%andb_true_iff. by rewrite IH.
Qed.

Lemma dropWhile_head (p : char -> bool) (c : char) (s : str) :
  p c = false -> dropWhile p (c :: s) = c :: s.
Proof. intros H. simpl. by rewrite H. Qed.

(** What [dropWhile] leaves starts with a unit that fails the test. *)
Lemma dropWhile_cons (p : char -> bool) (s : str) (c : char) (t : str) :
  dropWhile p s = c :: t -> p c = false.
Proof.
  induction s as [|d s IH]; simpl; [done|].
  destruct (p d) eqn:E; [done|]. by intros [= <- <-].
Qed.

Lemma takeWhile_forallb (p : char -> bool) (s : str) :
  forallb p (takeWhile p s) = true.
Proof.
  induction s as [|c s IH]; simpl; [done|].
  destruct (p c) eqn:E; simpl; [by rewrite E | done].
Qed.

Lemma forallb_rev (p : char -> bool) (s : str) : forallb p (rev s) = forallb p s.
Proof.
  apply eq_true_iff_eq. rewrite !forallb_forall.
  split; intros H x Hx; apply H; by apply in_rev in Hx || apply in_rev.
Qed.

(** [trimEnd] cuts a run of white space off the end and nothing else. *)
Lemma trimEnd_split (s : str) :
  exists ws, s = trimEnd s ++ ws /\ forallb isWhiteSpace ws = true.
Proof.
  unfold trimEnd. exists (rev (takeWhile isWhiteSpace (rev s))). split.
  - rewrite <- rev_app_distr, takeWhile_dropWhile. by rewrite rev_involutive.
  - rewrite forallb_rev. apply takeWhile_forallb.
Qed.

Lemma trimEnd_prefix (s : str) : trimEnd s `prefix_of` s.
Proof. destruct (trimEnd_split s) as (ws & H & _). by exists ws. Qed.

Lemma trimEnd_app_blank (s ws : str) :
  forallb isWhiteSpace ws = true -> trimEnd (s ++ ws) = trimEnd s.
Proof.
  intros H. unfold trimEnd. rewrite rev_app_distr.
  rewrite dropWhile_app_all; [done|]. by rewrite forallb_rev.
Qed.

(** A string that ends with a unit that is not white space is its own
    [trimEnd]. *)
Lemma trimEnd_snoc (s : str) (c : char) :
  isWhiteSpace c = false -> trimEnd (s ++ [c]) = s ++ [c].
Proof.
  intros H. unfold trimEnd. rewrite rev_app_distr. simpl. rewrite H.
  simpl. by rewrite rev_involutive.
Qed.

Lemma trim_nil (s : str) : trim s = [] <-> forallb isWhiteSpace s = true.
Proof.
  split; [|apply trim_blank].
  unfold trim, trimStart, trimEnd. intros H.
  apply (f_equal (@rev char)) in H. rewrite rev_involutive in H. simpl in H.
  apply dropWhile_nil in H. rewrite forallb_rev in H.
  destruct (dropWhile isWhiteSpace s) as [|c t] eqn:E; [by apply dropWhile_nil|].
  apply dropWhile_cons in E. simpl in H. by rewrite E in H.
Qed.

Lemma isEmpty_true (s : str) : isEmpty s = true <-> forallb isWhiteSpace s = true.
Proof.
  unfold isEmpty. rewrite <- trim_nil. rewrite Nat.eqb_eq.
  split; [apply nil_length_inv | by intros ->].
Qed.

(** [trim] of white space, then a run that neither starts nor ends with white
    space, then white space, is the run. *)
Lemma trim_core (a b : str) (t : str) (c d : char) (u : str) :
  forallb isWhiteSpace a = true -> forallb isWhiteSpace b = true ->
  t = c :: u -> isWhiteSpace c = false ->
  (exists v, t = v ++ [d]) -> isWhiteSpace d = false ->
  trim (a ++ t ++ b) = t.
Proof.
  intros Ha Hb -> Hc [v Hv] Hd. unfold trim, trimStart.
  rewrite dropWhile_app_all by done. simpl. rewrite Hc.
  change (c :: u ++ b) with ((c :: u) ++ b). rewrite trimEnd_app_blank by done.
  rewrite Hv. by apply trimEnd_snoc.
Qed.

(** ** The classifier *)

Lemma indexOf_from_elem (c : char) (p s : str) (i : Z) :
  indexOf_from (c :: p) s i <> -1 -> c ∈ s.
Proof.
  revert i. induction s as [|d s IH]; intros i; simpl; [done|].
  destruct (N.eqb_spec c d) as [->|Hne]; simpl.
  - intros _. left.
  - intros H. right. by apply (IH (i + 1)).
Qed.

Lemma not_blank_elem (c : char) (s : str) :
  c ∈ s -> isWhiteSpace c = false -> forallb isWhiteSpace s = false.
Proof.
  intros Hin Hc. destruct (forallb isWhiteSpace s) eqn:E; [|done].
  rewrite forallb_forall in E. rewrite (E c) in Hc; [done | by apply list_elem_of_In].
Qed.

Lemma isEmpty_false (s : str) :
  forallb isWhiteSpace s = false -> isEmpty s = false.
Proof.
  intros H. destruct (isEmpty s) eqn:E; [|done].
  apply isEmpty_true in E. congruence.
Qed.

Lemma firstMatch_not_break (s : str) : (firstMatch BLOCK_MATCHERS s).1 <> break.
Proof.
  simpl. destruct (match_code_marker s); [done|].
  destruct (match_atx s); [done|]. destruct (match_setext s); [done|].
  by destruct (match_blockquote s).
Qed.

(** X1 — The classifier answers [break] exactly for a remainder that is empty
    or white space only, and then hands back the number 0. *)
Theorem X1_break_iff_blank (line : str) (start_pos : nat) :
  ((getBlockInfo line start_pos).1 = break
   <-> forallb isWhiteSpace (substring line start_pos) = true)
  /\ (getBlockInfo line start_pos = (break, MZero)
      <-> forallb isWhiteSpace (substring line start_pos) = true).
Proof.
  unfold getBlockInfo.
  destruct (isEmpty (substring line start_pos)) eqn:E.
  - apply isEmpty_true in E. by rewrite E.
  - assert (Hnb : forallb isWhiteSpace (substring line start_pos) <> true).
    { intros H. apply isEmpty_true in H. congruence. }
    pose proof (firstMatch_not_break (substring line start_pos)) as Hfm.
    split; (split; [|done]); intros H; [done|]. by rewrite H in Hfm.
Qed.

(** X2 — Three backticks anywhere in the remainder make the line a fence
    marker, whatever else it holds (a heading or blockquote prefix included),
    and nothing else does; the match handed back is the three backticks. *)
Theorem X2_code_marker_iff_backticks (line : str) (start_pos : nat) :
  ((getBlockInfo line start_pos).1 = code_container_marker
   <-> indexOf (substring line start_pos) (lit "```") <> -1)
  /\ (getBlockInfo line start_pos = (code_container_marker, MString (lit "```"))
      <-> indexOf (substring line start_pos) (lit "```") <> -1).
Proof.
  unfold getBlockInfo. set (s := substring line start_pos).
  destruct (Z.eq_dec (indexOf s (lit "```")) (-1)) as [Hno|Hyes].
  - assert (Hm : match_code_marker s = None).
    { unfold match_code_marker. by rewrite Hno. }
    split; (split; [|done]); intros H; exfalso;
      (destruct (isEmpty s); [done|]); simpl in H; rewrite Hm in H;
      destruct (match_atx s); [done| |done|];
      destruct (match_setext s); try done; by destruct (match_blockquote s).
  - assert (Hm : match_code_marker s = Some (lit "```")).
    { unfold match_code_marker. by destruct (Z.eqb_spec (indexOf s (lit "```")) (-1)). }
    assert (He : isEmpty s = false).
    { apply isEmpty_false. apply (not_blank_elem 96%N); [|done].
      by apply (indexOf_from_elem 96%N (lit "``") s 0). }
    rewrite He. simpl. rewrite Hm. done.
Qed.

(** ** ATX headings *)

Lemma takeWhile_isChar (c : char) (t : str) :
  takeWhile (isChar c) t = replicate (length (takeWhile (isChar c) t)) c.
Proof.
  induction t as [|d t IH]; simpl; [done|]. unfold isChar at 1 3.
  destruct (N.eqb_spec c d) as [<-|]; simpl; [by rewrite <- IH | done].
Qed.

Lemma match_atx_Some (s m : str) :
  match_atx s = Some m ->
  exists n, (1 <= n <= 6)%nat
    /\ n = (6 `min` length (takeWhile (isChar HASH) (dropWhile isWhiteSpace s)))%nat
    /\ m = takeWhile isWhiteSpace s ++ replicate n HASH
    /\ m `prefix_of` s.
Proof.
  unfold match_atx. intros H.
  set (d := dropWhile isWhiteSpace s) in *.
  set (h := length (takeWhile (isChar HASH) d)).
  assert (Ht : take 6 (takeWhile (isChar HASH) d) = replicate (6 `min` h) HASH).
  { unfold h. rewrite (takeWhile_isChar HASH d) at 1. apply take_replicate. }
  assert (Hpre : takeWhile isWhiteSpace s ++ replicate (6 `min` h) HASH `prefix_of` s).
  { rewrite <- Ht. rewrite <- (takeWhile_dropWhile isWhiteSpace s) at 2.
    apply prefix_app. fold d. rewrite <- (takeWhile_dropWhile (isChar HASH) d) at 2.
    apply prefix_app_r, prefix_take. }
  rewrite Ht in H. exists (6 `min` h)%nat.
  destruct (6 `min` h)%nat as [|n'] eqn:E; simpl in H; [done|].
  injection H as <-. repeat split; try done; lia.
Qed.

Lemma trim_atx_prefix (ws : str) (n : nat) :
  forallb isWhiteSpace ws = true -> (1 <= n)%nat ->
  trim (ws ++ replicate n HASH) = replicate n HASH.
Proof.
  intros Hws Hn. destruct n as [|n]; [lia|].
  rewrite <- (app_nil_r (replicate (S n) HASH)) at 1.
  eapply (trim_core ws [] _ HASH HASH); try done.
  exists (replicate n HASH). apply replicate_S_end.
Qed.

Lemma getBlockInfo_atx (line : str) (pos : nat) (m : str) :
  getBlockInfo line pos = (atx_heading, MString m) ->
  match_atx (substring line pos) = Some m.
Proof.
  unfold getBlockInfo. destruct (isEmpty _); [done|]. simpl.
  destruct (match_code_marker _); [done|].
  destruct (match_atx _); [congruence|].
  destruct (match_setext _); [done|]. by destruct (match_blockquote _).
Qed.

Lemma numberToString_digit (n : nat) :
  (n < 10)%nat -> numberToString n = [N.of_nat (48 + n)].
Proof.
  intros H. unfold numberToString. cbn [digits_fuel].
  destruct (Nat.ltb_spec n 10); [|lia]. by rewrite Nat.mod_small.
Qed.

(** The shape of an ATX match and the level read off it. *)
Lemma atx_level (line : str) (pos : nat) (m : str)
    (Hclass : getBlockInfo line pos = (atx_heading, MString m)) :
  let s := substring line pos in
  let n := length (trim m) in
  (1 <= n <= 6)%nat
  /\ n = (6 `min` length (takeWhile (isChar HASH) (dropWhile isWhiteSpace s)))%nat
  /\ m = takeWhile isWhiteSpace s ++ replicate n HASH
  /\ m `prefix_of` s
  /\ numberToString n = [N.of_nat (48 + n)].
Proof.
  intros s n. apply getBlockInfo_atx, match_atx_Some in Hclass
    as (n0 & Hn0 & Hmin & Hm & Hpre).
  assert (Hn : n = n0).
  { unfold n. rewrite Hm, trim_atx_prefix; [apply length_replicate | | lia].
    apply takeWhile_forallb. }
  rewrite Hn. repeat split; try done; try lia.
  apply numberToString_digit. lia.
Qed.

(** X3 — A line classified as an ATX heading: the match is the leading white
    space and a run of [#]; its trimmed length, the heading level, is the
    number of leading [#] capped at 6, hence between 1 and 6, and prints as
    one digit. *)
Theorem X3_atx_level (line : str) (pos : nat) (m : str)
    (Hclass : getBlockInfo line pos = (atx_heading, MString m)) :
  let s := substring line pos in
  let n := length (trim m) in
  (1 <= n <= 6)%nat
  /\ n = (6 `min` length (takeWhile (isChar HASH) (dropWhile isWhiteSpace s)))%nat
  /\ m = takeWhile isWhiteSpace s ++ replicate n HASH
  /\ m `prefix_of` s
  /\ numberToString n = [N.of_nat (48 + n)].
Proof.
  intros s n. apply getBlockInfo_atx, match_atx_Some in Hclass
    as (n0 & Hn0 & Hmin & Hm & Hpre).
  assert (Hn : n = n0).
  { unfold n. rewrite Hm, trim_atx_prefix; [apply length_replicate | | lia].
    apply takeWhile_forallb. }
  rewrite Hn. repeat split; try done; try lia.
  apply numberToString_digit. lia.
Qed.

Lemma X3_witness :
  getBlockInfo (lit "  ####### deep") 0 = (atx_heading, MString (lit "  ######"))
  /\ length (trim (lit "  ######")) = 6%nat.
Proof.
  assert (H : getBlockInfo (lit "  ####### deep") 0
              = (atx_heading, MString (lit "  ######"))) by (vm_compute; reflexivity).
  split; [exact H|].
  destruct (X3_atx_level (lit "  ####### deep") 0 (lit "  ######") H) as (_ & -> & _).
  vm_compute. reflexivity.
Defined.

Lemma replace_prefix (s m : str) :
  m `prefix_of` s -> JS.replace s m [] = drop (length m) s.
Proof.
  intros H%startsWith_prefix. unfold JS.replace.
  assert (findFirst m s = Some ([], drop (length m) s)) as ->; [|done].
  destruct s; simpl; by rewrite H.
Qed.

(** The ATX handler on a line classified as a heading. *)
Lemma parse_atx (raw_lines : list str) (i pos : nat) (pl : list str)
    (raw m : str)
    (Hline : raw_lines !! i = Some raw)
    (Hclass : getBlockInfo (trimEnd raw) pos = (atx_heading, MString m)) :
  parse atx_heading raw_lines i pos pl (MString m)
  = Ret (pl, Some (wrapWithTag (lit "h" ++ [N.of_nat (48 + length (trim m))])
                     (trim (drop (pos + length m) raw)), i)).
Proof.
  destruct (atx_level _ _ _ Hclass) as (_ & _ & _ & Hpre & Hdigit).
  cbn [parse asString mbind res_bind]. unfold lineAt. rewrite Hline.
  cbn [mbind res_bind]. rewrite Hdigit.
  assert (Hpre' : m `prefix_of` substring raw pos).
  { destruct (trimEnd_split raw) as (ws & Hraw & _).
    unfold substring in *. rewrite Hraw at 1. rewrite drop_app.
    by apply prefix_app_r. }
  rewrite (replace_prefix _ _ Hpre'). unfold substring. by rewrite drop_drop.
Qed.

(** X4 — The ATX handler, for a line classified as a heading at any offset
    (offset 0, or just past a blockquote prefix): the fragment is the raw line
    past the offset and the matched prefix, trimmed, wrapped by [wrapWithTag]
    in [h] and the level digit; [parsed_lines] is left as it is and the index
    handed back is the line's own. *)
Theorem X4_atx_fragment (raw_lines : list str) (i pos : nat) (pl : list str)
    (raw m : str)
    (Hline : raw_lines !! i = Some raw)
    (Hclass : getBlockInfo (trimEnd raw) pos = (atx_heading, MString m)) :
  parse atx_heading raw_lines i pos pl (MString m)
  = Ret (pl, Some (wrapWithTag (lit "h" ++ [N.of_nat (48 + length (trim m))])
                     (trim (drop (pos + length m) raw)), i)).
Proof.
  destruct (atx_level _ _ _ Hclass) as (_ & _ & _ & Hpre & Hdigit).
  cbn [parse asString mbind res_bind]. unfold lineAt. rewrite Hline.
  cbn [mbind res_bind]. rewrite Hdigit.
  assert (Hpre' : m `prefix_of` substring raw pos).
  { destruct (trimEnd_split raw) as (ws & Hraw & _).
    unfold substring in *. rewrite Hraw at 1. rewrite drop_app.
    by apply prefix_app_r. }
  rewrite (replace_prefix _ _ Hpre'). unfold substring. by rewrite drop_drop.
Qed.

Lemma X4_witness :
  [lit "> ## Quoted  "] !! 0%nat = Some (lit "> ## Quoted  ")
  /\ parse atx_heading [lit "> ## Quoted  "] 0 2 [lit "<blockquote>"] (MString (lit "##"))
     = Ret ([lit "<blockquote>"], Some (lit "<h2>Quoted</h2>", 0%nat)).
Proof.
  split; [reflexivity|].
  rewrite (X4_atx_fragment [lit "> ## Quoted  "] 0 2 [lit "<blockquote>"]
             (lit "> ## Quoted  ") (lit "##")).
  - vm_compute. reflexivity.
  - reflexivity.
  - vm_compute. reflexivity.
Defined.

(** ** One turn of the loop, case by case *)

(** The three ways a turn can go: a fence marker, a line inside a fence, or
    the blockquote bookkeeping followed by a handler. *)
Lemma loopBody_cases (raw_lines : list str) (c c' : loop_state) (raw : str) :
  raw_lines !! k c = Some raw ->
  loopBody raw_lines c = Ret c' ->
  let bm := getBlockInfo (trimEnd raw) 0 in
  (bm.1 = code_container_marker
   /\ c' = {| state := set_insideCodeContainer (state c)
                         (negb (insideCodeContainer (state c)));
              not_a_paragraph := not_a_paragraph c;
              parsed_lines :=
                parsed_lines c
                ++ [if negb (insideCodeContainer (state c))
                    then OPEN_PRE (substring (trimEnd raw) 3) else lit "</pre>"];
              k := S (k c) |})
  \/ (bm.1 <> code_container_marker /\ insideCodeContainer (state c) = true
      /\ c' = {| state := state c;
                 not_a_paragraph :=
                   <[length (parsed_lines c) := true]> (not_a_paragraph c);
                 parsed_lines := parsed_lines c ++ [escapeHTMLChars raw ++ [LF]];
                 k := S (k c) |})
  \/ (bm.1 <> code_container_marker /\ insideCodeContainer (state c) = false
      /\ exists s1 pl1 off b1 m1 pl2 r,
          blockquoteStep (state c) (parsed_lines c) (trimEnd raw) bm.1 bm.2
          = Ret (s1, pl1, off, (b1, m1))
          /\ parse b1 raw_lines (k c) off pl1 m1 = Ret (pl2, r)
          /\ c' = {| state := s1; not_a_paragraph := not_a_paragraph c;
                     parsed_lines := pl2 ++ match r with Some (t, _) => [t] | None => [] end;
                     k := S (k c) |}).
Proof.
  intros Hline Hbody bm.
  assert (Hk : (k c < length raw_lines)%nat) by (by eapply lookup_lt_Some).
  destruct (loopBody_ok raw_lines c Hk) as (c0 & Hc0 & Hk0).
  rewrite Hbody in Hc0. injection Hc0 as <-.
  revert Hbody. unfold loopBody, lineAt. rewrite Hline. cbn [mbind res_bind].
  subst bm. destruct (getBlockInfo (trimEnd raw) 0) as [b m]. cbn [fst snd].
  case_decide as Hb.
  { intros [= <-]. left. split; [done|]. cbn [insideCodeContainer set_insideCodeContainer].
    done. }
  destruct (insideCodeContainer (state c)) eqn:Hfence.
  { intros [= <-]. right; left. repeat split; try done.
    rewrite length_app. cbn [length].
    by replace (length (parsed_lines c) + 1 - 1)%nat with (length (parsed_lines c)) by lia. }
  destruct (blockquoteStep _ _ _ _ _) as [[[[s1 pl1] off] [b1 m1]]| |] eqn:Hbq;
    cbn [mbind res_bind]; [|done..].
  destruct (parse _ _ _ _ _ _) as [[pl2 r]| |] eqn:Hparse; cbn [mbind res_bind]; [|done..].
  intros Hc'. right; right. repeat split; try done.
  exists s1, pl1, off, b1, m1, pl2, r. repeat split; try done.
  destruct r as [[t last]|]; injection Hc' as <-.
  - cbn [k] in Hk0. by rewrite Hk0.
  - by rewrite app_nil_r.
Qed.

(** The blockquote bookkeeping touches the level only, and pushes at most one
    fragment. *)
Lemma blockquoteStep_frame (s : State) (pl : list str) (line : str)
    (b : block) (m : matched_t) (s1 : State) (pl1 : list str) (off : nat)
    (bm : block * matched_t) :
  blockquoteStep s pl line b m = Ret (s1, pl1, off, bm) ->
  s1 = set_blockquoteLevel s (blockquoteLevel s1)
  /\ (pl1 = pl \/ exists t, pl1 = pl ++ [t])
  /\ (b <> blockquote -> s1 = s).
Proof.
  assert (Hs : s = set_blockquoteLevel s (blockquoteLevel s)) by (by destruct s).
  unfold blockquoteStep. case_decide.
  - destruct m as [t|]; [|done]. cbn [asString mbind res_bind].
    destruct (negb _).
    + destruct (JS.repeat _ _) as [x| |]; cbn [mbind res_bind]; [|done..].
      intros [= <- <- <- <-]. split; [done|]. split; [eauto | done].
    + cbn [mbind res_bind]. intros [= <- <- <- <-]. split; [done|]. split; [eauto | done].
  - destruct (blockquoteLevel s >? 0).
    + destruct (JS.repeat _ _) as [x| |]; cbn [mbind res_bind]; [|done..].
      intros [= <- <- <- <-]. split; [done|]. split; [eauto | done].
    + intros [= <- <- <- <-]. split; [done|]. split; [eauto | done].
Qed.

(** No handler changes the number of fragments already pushed. *)
Lemma parse_length (b : block) (raw_lines : list str) (i pos : nat)
    (pl : list str) (m : matched_t) (pl2 : list str) (r : option (str * nat)) :
  parse b raw_lines i pos pl m = Ret (pl2, r) -> length pl2 = length pl.
Proof.
  destruct b; cbn [parse].
  - by intros [= <- <-].
  - by intros [= <- <-].
  - by intros [= <- <-].
  - destruct m as [t|]; [|done]. cbn [asString mbind res_bind].
    destruct (lineAt raw_lines i); cbn [mbind res_bind]; [|done..]. by intros [= <- <-].
  - destruct m as [t|]; [|done]. cbn [asString mbind res_bind].
    destruct (0 <? length pl)%nat.
    + destruct (pl !! _); [|done]. intros [= <- <-]. apply length_insert.
    + by intros [= <- <-].
  - destruct (lineAt raw_lines i); cbn [mbind res_bind]; [|done..]. by intros [= <- <-].
Qed.

(** ** Blockquote lines *)

Lemma getBlockInfo_blockquote (line : str) (pos : nat) (m : str) :
  getBlockInfo line pos = (blockquote, MString m) ->
  match_blockquote (substring line pos) = Some m.
Proof.
  unfold getBlockInfo. destruct (isEmpty _); [done|]. simpl.
  destruct (match_code_marker _); [done|].
  destruct (match_atx _); [done|]. destruct (match_setext _); [done|].
  destruct (match_blockquote _); [congruence | done].
Qed.

(** The blockquote match is the run of [>] and the white space after it; its
    trimmed length is the length of the run. *)
Lemma match_blockquote_Some (s m : str) :
  match_blockquote s = Some m ->
  (1 <= length (takeWhile (isChar GT) s))%nat
  /\ m = takeWhile (isChar GT) s ++ takeWhile isWhiteSpace (dropWhile (isChar GT) s)
  /\ trim m = takeWhile (isChar GT) s
  /\ m `prefix_of` s.
Proof.
  unfold match_blockquote.
  destruct (takeWhile (isChar GT) s) as [|g gs] eqn:E; [done|].
  intros [= <-]. split; [simpl; lia|]. split; [done|]. split.
  - change (trim ((g :: gs) ++ takeWhile isWhiteSpace (dropWhile (isChar GT) s))
            = g :: gs).
    rewrite <- E. pose proof (takeWhile_isChar GT s) as Hrep.
    destruct (length (takeWhile (isChar GT) s)) as [|n] eqn:El;
      [by rewrite E in El|].
    apply (trim_core [] _ _ GT GT (replicate n GT)); try done.
    + apply takeWhile_forallb.
    + exists (replicate n GT). rewrite Hrep. apply replicate_S_end.
  - change ((g :: gs) ++ takeWhile isWhiteSpace (dropWhile (isChar GT) s)
            `prefix_of` s).
    rewrite <- E. rewrite <- (takeWhile_dropWhile (isChar GT) s) at 3.
    apply prefix_app.
    rewrite <- (takeWhile_dropWhile isWhiteSpace (dropWhile (isChar GT) s)) at 2.
    by apply prefix_app_r.
Qed.

(** The blockquote bookkeeping on a blockquote line. *)
Lemma blockquoteStep_depth (s : State) (pl : list str) (line m : str)
    (Hclass : getBlockInfo line 0 = (blockquote, MString m)) :
  1 <= quoteDepth line
  /\ exists pl1,
      blockquoteStep s pl line blockquote (MString m)
      = Ret (set_blockquoteLevel s (quoteDepth line), pl1, length m,
             getBlockInfo line (length m))
      /\ (quoteDepth line = blockquoteLevel s -> pl1 = pl)
      /\ (blockquoteLevel s < quoteDepth line ->
          pl1 = pl ++ [repeat_nat (lit "<blockquote>")
                         (Z.to_nat (quoteDepth line - blockquoteLevel s))])
      /\ (quoteDepth line < blockquoteLevel s ->
          pl1 = pl ++ [repeat_nat (lit "</blockquote>")
                         (Z.to_nat (blockquoteLevel s - quoteDepth line))]).
Proof.
  apply getBlockInfo_blockquote, match_blockquote_Some in Hclass
    as (Hlen & _ & Htrim & _). unfold substring in *. rewrite drop_0 in *.
  unfold quoteDepth. split; [lia|].
  unfold blockquoteStep. case_decide; [|done]. cbn [asString mbind res_bind].
  rewrite Htrim.
  set (d := Z.of_nat (length (takeWhile (isChar GT) line))).
  destruct (Z.eqb_spec (d - blockquoteLevel s) 0) as [H0|H0]; cbn [negb mbind res_bind].
  - eexists. split; [|split; [done | split; intros; lia]].
    replace d with (blockquoteLevel s) by lia. by destruct s.
  - rewrite repeat_nonneg by lia. cbn [mbind res_bind].
    replace (blockquoteLevel s + (d - blockquoteLevel s)) with d by lia.
    eexists. split; [reflexivity|].
    split; [intros; lia|].
    destruct (Z.ltb_spec (d - blockquoteLevel s) 0); split; intros; try lia.
    + do 3 f_equal. lia.
    + do 3 f_equal. lia.
Qed.

(** X5 — A blockquote line sets the level to the number of [>] it starts
    with, whatever the level was: nothing is pushed when the level is
    unchanged, one fragment of as many open tags as levels gained when it
    grows, of as many close tags as levels lost when it shrinks; the rest of
    the line, past the matched prefix, is classified again. *)
Theorem X5_blockquote_depth (s : State) (pl : list str) (line m : str)
    (Hclass : getBlockInfo line 0 = (blockquote, MString m)) :
  1 <= quoteDepth line
  /\ exists pl1,
      blockquoteStep s pl line blockquote (MString m)
      = Ret (set_blockquoteLevel s (quoteDepth line), pl1, length m,
             getBlockInfo line (length m))
      /\ (quoteDepth line = blockquoteLevel s -> pl1 = pl)
      /\ (blockquoteLevel s < quoteDepth line ->
          pl1 = pl ++ [repeat_nat (lit "<blockquote>")
                         (Z.to_nat (quoteDepth line - blockquoteLevel s))])
      /\ (quoteDepth line < blockquoteLevel s ->
          pl1 = pl ++ [repeat_nat (lit "</blockquote>")
                         (Z.to_nat (blockquoteLevel s - quoteDepth line))]).
Proof.
  apply getBlockInfo_blockquote, match_blockquote_Some in Hclass
    as (Hlen & _ & Htrim & _). unfold substring in *. rewrite drop_0 in *.
  unfold quoteDepth. split; [lia|].
  unfold blockquoteStep. case_decide; [|done]. cbn [asString mbind res_bind].
  rewrite Htrim.
  set (d := Z.of_nat (length (takeWhile (isChar GT) line))).
  destruct (Z.eqb_spec (d - blockquoteLevel s) 0) as [H0|H0]; cbn [negb mbind res_bind].
  - eexists. split; [|split; [done | split; intros; lia]].
    replace d with (blockquoteLevel s) by lia. by destruct s.
  - rewrite repeat_nonneg by lia. cbn [mbind res_bind].
    replace (blockquoteLevel s + (d - blockquoteLevel s)) with d by lia.
    eexists. split; [reflexivity|].
    split; [intros; lia|].
    destruct (Z.ltb_spec (d - blockquoteLevel s) 0); split; intros; try lia.
    + do 3 f_equal. lia.
    + do 3 f_equal. lia.
Qed.

Lemma X5_witness :
  getBlockInfo (lit ">>> deep") 0 = (blockquote, MString (lit ">>> "))
  /\ blockquoteStep (set_blockquoteLevel reset 1) [] (lit ">>> deep") blockquote
       (MString (lit ">>> "))
     = Ret (set_blockquoteLevel reset 3, [lit "<blockquote><blockquote>"], 4%nat,
            (plaintext, MZero)).
Proof.
  assert (H : getBlockInfo (lit ">>> deep") 0 = (blockquote, MString (lit ">>> ")))
    by (vm_compute; reflexivity).
  split; [exact H|].
  destruct (X5_blockquote_depth (set_blockquoteLevel reset 1) [] (lit ">>> deep")
              (lit ">>> ") H) as (_ & pl1 & -> & _ & -> & _).
  - vm_compute. reflexivity.
  - vm_compute. reflexivity.
Defined.

(** X6 — A remainder is a blockquote line exactly when it starts with [>] and
    holds no three backticks: white space before the [>] makes it plain
    text, and a fence marker anywhere wins over the quote. *)
Theorem X6_blockquote_iff (line : str) (start_pos : nat) :
  (getBlockInfo line start_pos).1 = blockquote
  <-> startsWith [GT] (substring line start_pos) = true
      /\ indexOf (substring line start_pos) (lit "```") = -1.
Proof.
  unfold getBlockInfo in *. generalize (substring line start_pos) as s.
  intros s. split.
  - intros H. destruct (isEmpty s); [done|]. simpl in H.
    destruct (match_code_marker s) eqn:Hc; [done|].
    destruct (match_atx s); [done|]. destruct (match_setext s); [done|].
    destruct (match_blockquote s) as [m|] eqn:Hb; [|done]. split.
    + unfold match_blockquote in Hb. destruct s as [|c t]; [done|].
      cbn [takeWhile] in Hb. cbn [startsWith]. unfold isChar in Hb.
      by destruct (GT =? c)%N.
    + unfold match_code_marker in Hc.
      by destruct (Z.eqb_spec (indexOf s (lit "```")) (-1)).
  - intros [Hgt Hno]. destruct s as [|c t]; [done|].
    cbn [startsWith] in Hgt. destruct (N.eqb_spec GT c) as [Hc|]; [|done].
    assert (He : isEmpty (c :: t) = false).
    { apply isEmpty_false. apply (not_blank_elem c); [left | by rewrite <- Hc]. }
    rewrite He. cbn [firstMatch BLOCK_MATCHERS]. unfold match_code_marker.
    rewrite Hno. rewrite <- Hc. done.
Qed.

(** ** What a turn does to the state *)

(** The fence flag across one turn. *)
Lemma loopBody_fence_flag (raw_lines : list str) (c c' : loop_state) (raw : str)
    (Hline : raw_lines !! k c = Some raw)
    (Hbody : loopBody raw_lines c = Ret c') :
  insideCodeContainer (state c')
  = xorb (insideCodeContainer (state c)) (isMarkerLine raw)
  /\ (isMarkerLine raw = true ->
      blockquoteLevel (state c') = blockquoteLevel (state c)
      /\ length (parsed_lines c') = S (length (parsed_lines c))).
Proof.
  unfold isMarkerLine.
  destruct (loopBody_cases _ _ _ _ Hline Hbody)
    as [(Hb & ->) | [(Hb & Hin & ->) | (Hb & Hin & s1 & pl1 & off & b1 & m1 & pl2 & r
                                         & Hbq & Hparse & ->)]];
    cbn [state parsed_lines insideCodeContainer set_insideCodeContainer blockquoteLevel].
  - rewrite bool_decide_eq_true_2 by done. split; [by destruct (insideCodeContainer _)|].
    intros _. split; [done|]. rewrite length_app. simpl. lia.
  - rewrite bool_decide_eq_false_2 by done. split; [by rewrite Hin | done].
  - rewrite bool_decide_eq_false_2 by done. split; [|done].
    apply blockquoteStep_frame in Hbq as (-> & _ & _). by rewrite Hin.
Qed.

(** X7 — After a turn the fence flag is the old flag flipped exactly when the
    line is a fence marker; a marker line pushes one fragment and leaves the
    blockquote level alone, whatever that level is. *)
Theorem X7_fence_flag (raw_lines : list str) (c c' : loop_state) (raw : str)
    (Hline : raw_lines !! k c = Some raw)
    (Hbody : loopBody raw_lines c = Ret c') :
  insideCodeContainer (state c')
  = xorb (insideCodeContainer (state c)) (isMarkerLine raw)
  /\ (isMarkerLine raw = true ->
      blockquoteLevel (state c') = blockquoteLevel (state c)
      /\ length (parsed_lines c') = S (length (parsed_lines c))).
Proof.
  unfold isMarkerLine.
  destruct (loopBody_cases _ _ _ _ Hline Hbody)
    as [(Hb & ->) | [(Hb & Hin & ->) | (Hb & Hin & s1 & pl1 & off & b1 & m1 & pl2 & r
                                         & Hbq & Hparse & ->)]];
    cbn [state parsed_lines insideCodeContainer set_insideCodeContainer blockquoteLevel].
  - rewrite bool_decide_eq_true_2 by done. split; [by destruct (insideCodeContainer _)|].
    intros _. split; [done|]. rewrite length_app. simpl. lia.
  - rewrite bool_decide_eq_false_2 by done. split; [by rewrite Hin | done].
  - rewrite bool_decide_eq_false_2 by done. split; [|done].
    apply blockquoteStep_frame in Hbq as (-> & _ & _). by rewrite Hin.
Qed.

Lemma X7_witness :
  [lit "> a"; lit "  ```js"] !! 1%nat = Some (lit "  ```js")
  /\ exists c', loopBody [lit "> a"; lit "  ```js"]
                  {| state := set_blockquoteLevel reset 1; not_a_paragraph := ∅;
                     parsed_lines := [lit "<blockquote>"; lit "a"]; k := 1 |} = Ret c'
       /\ insideCodeContainer (state c') = true.
Proof.
  split; [reflexivity|].
  destruct (loopBody [lit "> a"; lit "  ```js"]
              {| state := set_blockquoteLevel reset 1; not_a_paragraph := ∅;
                 parsed_lines := [lit "<blockquote>"; lit "a"]; k := 1 |})
    as [c'| |] eqn:Hbody; [|vm_compute in Hbody; discriminate..].
  exists c'. split; [reflexivity|].
  destruct (X7_fence_flag [lit "> a"; lit "  ```js"]
              {| state := set_blockquoteLevel reset 1; not_a_paragraph := ∅;
                 parsed_lines := [lit "<blockquote>"; lit "a"]; k := 1 |}
              c' (lit "  ```js") eq_refl Hbody) as [-> _].
  vm_compute. reflexivity.
Defined.

(** The blockquote level across one turn. *)
Lemma loopBody_level (raw_lines : list str) (c c' : loop_state) (raw : str)
    (Hline : raw_lines !! k c = Some raw)
    (Hbody : loopBody raw_lines c = Ret c') :
  blockquoteLevel (state c')
  = (if negb (insideCodeContainer (state c))
        && bool_decide ((getBlockInfo (trimEnd raw) 0).1 = blockquote)
     then quoteDepth (trimEnd raw) else blockquoteLevel (state c))
  /\ (0 <= blockquoteLevel (state c) -> 0 <= blockquoteLevel (state c')).
Proof.
  assert (Hmain : blockquoteLevel (state c')
     = (if negb (insideCodeContainer (state c))
           && bool_decide ((getBlockInfo (trimEnd raw) 0).1 = blockquote)
        then quoteDepth (trimEnd raw) else blockquoteLevel (state c))).
  { destruct (loopBody_cases _ _ _ _ Hline Hbody)
      as [(Hb & ->) | [(Hb & Hin & ->) | (Hb & Hin & s1 & pl1 & off & b1 & m1 & pl2 & r
                                           & Hbq & Hparse & ->)]];
      cbn [state blockquoteLevel set_insideCodeContainer].
    - rewrite (bool_decide_eq_false_2 (_ = blockquote)) by (by rewrite Hb).
      by rewrite andb_false_r.
    - by rewrite Hin.
    - rewrite Hin. cbn [negb andb]. case_bool_decide as Hq.
      + pose proof (getBlockInfo_ok (trimEnd raw) 0) as Hok.
        destruct (getBlockInfo (trimEnd raw) 0) as [b m] eqn:Hbm. cbn [fst snd] in *.
        subst b. destruct m as [m|]; [|done].
        destruct (blockquoteStep_depth (state c) (parsed_lines c) _ _ Hbm)
          as (_ & pl1' & Hstep & _).
        rewrite Hstep in Hbq. by injection Hbq as <- _ _ _.
      + apply blockquoteStep_frame in Hbq as (_ & _ & Hs). by rewrite (Hs Hq). }
  split; [done|]. intros Hpos. rewrite Hmain.
  destruct (_ && _); [unfold quoteDepth; lia | done].
Qed.

(** X8 — The blockquote level after a turn: the number of leading [>] of the
    line when the line is a blockquote line met outside a fence, and the old
    level in every other case.  So a level that is not negative stays so. *)
Theorem X8_level_after_turn (raw_lines : list str) (c c' : loop_state) (raw : str)
    (Hline : raw_lines !! k c = Some raw)
    (Hbody : loopBody raw_lines c = Ret c') :
  blockquoteLevel (state c')
  = (if negb (insideCodeContainer (state c))
        && bool_decide ((getBlockInfo (trimEnd raw) 0).1 = blockquote)
     then quoteDepth (trimEnd raw) else blockquoteLevel (state c))
  /\ (0 <= blockquoteLevel (state c) -> 0 <= blockquoteLevel (state c')).
Proof.
  assert (Hmain : blockquoteLevel (state c')
     = (if negb (insideCodeContainer (state c))
           && bool_decide ((getBlockInfo (trimEnd raw) 0).1 = blockquote)
        then quoteDepth (trimEnd raw) else blockquoteLevel (state c))).
  { destruct (loopBody_cases _ _ _ _ Hline Hbody)
      as [(Hb & ->) | [(Hb & Hin & ->) | (Hb & Hin & s1 & pl1 & off & b1 & m1 & pl2 & r
                                           & Hbq & Hparse & ->)]];
      cbn [state blockquoteLevel set_insideCodeContainer].
    - rewrite (bool_decide_eq_false_2 (_ = blockquote)) by (by rewrite Hb).
      by rewrite andb_false_r.
    - by rewrite Hin.
    - rewrite Hin. cbn [negb andb]. case_bool_decide as Hq.
      + pose proof (getBlockInfo_ok (trimEnd raw) 0) as Hok.
        destruct (getBlockInfo (trimEnd raw) 0) as [b m] eqn:Hbm. cbn [fst snd] in *.
        subst b. destruct m as [m|]; [|done].
        destruct (blockquoteStep_depth (state c) (parsed_lines c) _ _ Hbm)
          as (_ & pl1' & Hstep & _).
        rewrite Hstep in Hbq. by injection Hbq as <- _ _ _.
      + apply blockquoteStep_frame in Hbq as (_ & _ & Hs). by rewrite (Hs Hq). }
  split; [done|]. intros Hpos. rewrite Hmain.
  destruct (_ && _); [unfold quoteDepth; lia | done].
Qed.

Lemma X8_witness :
  [lit ">> a"] !! 0%nat = Some (lit ">> a")
  /\ exists c', loopBody [lit ">> a"] (startLoop reset) = Ret c'
       /\ blockquoteLevel (state c') = 2.
Proof.
  split; [reflexivity|].
  destruct (loopBody [lit ">> a"] (startLoop reset)) as [c'| |] eqn:Hbody;
    [|vm_compute in Hbody; discriminate..].
  exists c'. split; [reflexivity|].
  destruct (X8_level_after_turn [lit ">> a"] (startLoop reset) c' (lit ">> a")
              eq_refl Hbody) as [-> _].
  vm_compute. reflexivity.
Defined.

(** ** Whole-document consequences *)

Lemma mainLoop_exit (raw_lines : list str) (fuel : nat) (c cf : loop_state) :
  mainLoop fuel raw_lines c = Ret cf -> (length raw_lines <= k cf)%nat.
Proof.
  revert c. induction fuel as [|fuel IH]; intros c; cbn [mainLoop].
  - destruct (Nat.ltb_spec (k c) (length raw_lines)); [done|]. by intros [= <-].
  - destruct (Nat.ltb_spec (k c) (length raw_lines)); [|by intros [= <-]].
    destruct (loopBody raw_lines c) as [c1| |]; cbn [mbind res_bind]; [|done..].
    apply IH.
Qed.

(** A turn pushes no fragment, one or two, and removes none. *)
Lemma loopBody_length (raw_lines : list str) (c c' : loop_state) :
  (k c < length raw_lines)%nat -> loopBody raw_lines c = Ret c' ->
  (length (parsed_lines c) <= length (parsed_lines c')
   <= length (parsed_lines c) + 2)%nat
  /\ k c' = S (k c).
Proof.
  intros Hk Hbody.
  destruct (lookup_lt_is_Some_2 raw_lines (k c) Hk) as [raw Hline].
  destruct (loopBody_cases _ _ _ _ Hline Hbody)
    as [(Hb & ->) | [(Hb & Hin & ->) | (Hb & Hin & s1 & pl1 & off & b1 & m1 & pl2 & r
                                         & Hbq & Hparse & ->)]];
    cbn [parsed_lines k]; rewrite ?length_app; cbn [length]; try (split; [lia | done]).
  apply parse_length in Hparse. rewrite Hparse.
  apply blockquoteStep_frame in Hbq as (_ & [-> | [t ->]] & _);
    rewrite ?length_app; destruct r as [[? ?]|]; cbn [length]; (split; [lia | done]).
Qed.

(** X9 — The loop ends at the last raw line with at most two fragments per
    raw line; with the closing fragment the join takes at most two per line
    and one. *)
Theorem X9_fragments_bound (s : State) (text : str) :
  exists cf,
    mainLoop (length (splitLines text)) (splitLines text) (startLoop s) = Ret cf
    /\ k cf = length (splitLines text)
    /\ (length (parsed_lines cf) <= 2 * length (splitLines text))%nat
    /\ length (secondPass (not_a_paragraph cf) (parsed_lines cf))
       = length (parsed_lines cf).
Proof.
  destruct (mainLoop_fuel_enough (splitLines text) (length (splitLines text))
              (startLoop s)) as [cf Hcf]; [simpl; lia|].
  exists cf. split; [done|].
  pose proof (mainLoop_exit _ _ _ _ Hcf) as Hexit.
  assert (Hinv : (length (parsed_lines cf) <= 2 * k cf)%nat
                 /\ (k cf <= length (splitLines text))%nat).
  { refine (mainLoop_invariant (splitLines text)
              (fun c => (length (parsed_lines c) <= 2 * k c)%nat
                        /\ (k c <= length (splitLines text))%nat) _ _ _ _ _ Hcf).
    - intros c c' [Hlen Hle] Hk Hbody.
      destruct (loopBody_length _ _ _ Hk Hbody) as [Hl ->]. lia.
    - simpl. lia. }
  split; [lia|]. split; [lia|]. unfold secondPass. apply length_imap.
Qed.

(** The two list fields are neither read nor written. *)
Lemma blockquoteStep_withLists (s : State) (pl : list str) (line : str)
    (b : block) (m : matched_t) (level : Z) (type : option str) :
  blockquoteStep (withLists s level type) pl line b m
  = match blockquoteStep s pl line b m with
    | Ret (s1, pl1, off, bm) => Ret (withLists s1 level type, pl1, off, bm)
    | Throw e => Throw e
    | OutOfFuel => OutOfFuel
    end.
Proof.
  unfold blockquoteStep. cbn [withLists blockquoteLevel]. case_decide.
  - destruct m as [t|]; [|done]. cbn [asString mbind res_bind].
    destruct (negb _); [|done].
    by destruct (JS.repeat _ _).
  - destruct (blockquoteLevel s >? 0); [|done]. by destruct (JS.repeat _ _).
Qed.

Lemma loopBody_withLists (raw_lines : list str) (c : loop_state)
    (level : Z) (type : option str) :
  loopBody raw_lines
    {| state := withLists (state c) level type; not_a_paragraph := not_a_paragraph c;
       parsed_lines := parsed_lines c; k := k c |}
  = match loopBody raw_lines c with
    | Ret c' => Ret {| state := withLists (state c') level type;
                       not_a_paragraph := not_a_paragraph c';
                       parsed_lines := parsed_lines c'; k := k c' |}
    | Throw e => Throw e
    | OutOfFuel => OutOfFuel
    end.
Proof.
  unfold loopBody. cbn [state not_a_paragraph parsed_lines k].
  destruct (lineAt raw_lines (k c)) as [raw| |]; cbn [mbind res_bind]; [|done..].
  destruct (getBlockInfo (trimEnd raw) 0) as [b m]. case_decide; [done|].
  cbn [withLists insideCodeContainer].
  destruct (insideCodeContainer (state c)); [done|].
  rewrite blockquoteStep_withLists.
  destruct (blockquoteStep _ _ _ _ _) as [[[[s1 pl1] off] [b1 m1]]| |];
    cbn [mbind res_bind]; [|done..].
  destruct (parse _ _ _ _ _ _) as [[pl2 [[t last]|]]| |]; cbn [mbind res_bind]; done.
Qed.

Lemma mainLoop_withLists (raw_lines : list str) (fuel : nat) (c : loop_state)
    (level : Z) (type : option str) :
  mainLoop fuel raw_lines
    {| state := withLists (state c) level type; not_a_paragraph := not_a_paragraph c;
       parsed_lines := parsed_lines c; k := k c |}
  = match mainLoop fuel raw_lines c with
    | Ret c' => Ret {| state := withLists (state c') level type;
                       not_a_paragraph := not_a_paragraph c';
                       parsed_lines := parsed_lines c'; k := k c' |}
    | Throw e => Throw e
    | OutOfFuel => OutOfFuel
    end.
Proof.
  revert c. induction fuel as [|fuel IH]; intros c; cbn [mainLoop k].
  - by destruct (k c <? length raw_lines)%nat.
  - destruct (k c <? length raw_lines)%nat; [|done].
    rewrite loopBody_withLists.
    destruct (loopBody raw_lines c) as [c1| |]; cbn [mbind res_bind]; [|done..].
    apply IH.
Qed.

Lemma parseMarkdown_withLists (s s' : State) (v : value) (out : str)
    (level : Z) (type : option str) :
  parseMarkdown s v = Ret (out, s') ->
  parseMarkdown (withLists s level type) v = Ret (out, withLists s' level type).
Proof.
  unfold parseMarkdown, parseMarkdownFuel.
  destruct v as [| | | |text|]; try by intros [= <- <-].
  destruct (length (trim text) =? 0)%nat; [by intros [= <- <-]|].
  pose proof (mainLoop_withLists (splitLines text) (length (splitLines text))
                (startLoop s) level type) as Hsim.
  change {| state := withLists (state (startLoop s)) level type;
            not_a_paragraph := not_a_paragraph (startLoop s);
            parsed_lines := parsed_lines (startLoop s); k := k (startLoop s) |}
    with (startLoop (withLists s level type)) in Hsim.
  rewrite Hsim.
  destruct (mainLoop _ _ (startLoop s)) as [cf| |]; cbn [mbind res_bind]; [|done..].
  cbn [state not_a_paragraph parsed_lines].
  rewrite !closeBlockquotes_ok. cbn [mbind res_bind withLists blockquoteLevel].
  by intros [= <- <-].
Qed.

(** X10 — [listLevel] and [listType] play no part: a parse started with other
    values in them gives the same output and the same tracking state, and the
    state a parse leaves has them as it found them. *)
Theorem X10_list_fields_inert (s s' : State) (v : value) (out : str)
    (level : Z) (type : option str)
    (Hparse : parseMarkdown s v = Ret (out, s')) :
  parseMarkdown (withLists s level type) v = Ret (out, withLists s' level type)
  /\ listLevel s' = listLevel s /\ listType s' = listType s.
Proof.
  split; [by apply parseMarkdown_withLists|].
  pose proof (parseMarkdown_withLists _ _ _ _ (listLevel s) (listType s) Hparse) as H.
  assert (Hs : withLists s (listLevel s) (listType s) = s) by (by destruct s).
  rewrite Hs, Hparse in H. injection H as H. by rewrite H.
Qed.

Lemma X10_witness :
  parseMarkdown reset (VString (lit "> a")) = Ret (lit "<blockquote><p>a</p></blockquote>",
                                                  set_blockquoteLevel reset 1)
  /\ parseMarkdown (withLists reset 7 (Some (lit "ul"))) (VString (lit "> a"))
     = Ret (lit "<blockquote><p>a</p></blockquote>",
            withLists (set_blockquoteLevel reset 1) 7 (Some (lit "ul"))).
Proof.
  assert (H : parseMarkdown reset (VString (lit "> a"))
              = Ret (lit "<blockquote><p>a</p></blockquote>", set_blockquoteLevel reset 1))
    by (vm_compute; reflexivity).
  split; [exact H|].
  exact (proj1 (X10_list_fields_inert reset _ _ _ 7 (Some (lit "ul")) H)).
Defined.

Lemma markerLines_cons (raw : str) (rest : list str) :
  markerLines (raw :: rest)
  = (if isMarkerLine raw then S (markerLines rest) else markerLines rest).
Proof. unfold markerLines. cbn [List.filter]. by destruct (isMarkerLine raw). Qed.

Lemma mainLoop_fence_parity (raw_lines : list str) (fuel : nat) (c cf : loop_state) :
  mainLoop fuel raw_lines c = Ret cf ->
  insideCodeContainer (state cf)
  = xorb (insideCodeContainer (state c))
      (Nat.odd (markerLines (drop (k c) raw_lines))).
Proof.
  revert c. induction fuel as [|fuel IH]; intros c; cbn [mainLoop].
  - destruct (Nat.ltb_spec (k c) (length raw_lines)); [done|]. intros [= <-].
    rewrite drop_ge by done. by rewrite xorb_false_r.
  - destruct (Nat.ltb_spec (k c) (length raw_lines)) as [Hk|Hk].
    + destruct (loopBody raw_lines c) as [c1| |] eqn:Hbody; cbn [mbind res_bind];
        [|done..].
      intros Hrest. rewrite (IH _ Hrest).
      destruct (lookup_lt_is_Some_2 raw_lines (k c) Hk) as [raw Hline].
      destruct (loopBody_fence_flag _ _ _ _ Hline Hbody) as [-> _].
      destruct (loopBody_length _ _ _ Hk Hbody) as [_ ->].
      rewrite (drop_S _ _ _ Hline), markerLines_cons.
      destruct (isMarkerLine raw); [|by rewrite xorb_false_r].
      rewrite Nat.odd_succ, <- Nat.negb_odd.
      by destruct (insideCodeContainer (state c)),
                  (Nat.odd (markerLines (drop (S (k c)) raw_lines))).
    + intros [= <-]. rewrite drop_ge by done. by rewrite xorb_false_r.
Qed.

(** X11 — The fence flag a parse leaves is the flag it found, flipped when
    the document has an odd number of fence-marker lines: from a closed fence,
    a fence is left open exactly by an odd number of markers. *)
Theorem X11_fence_parity (s s' : State) (text out : str)
    (Htext : trim text <> [])
    (Hparse : parseMarkdown s (VString text) = Ret (out, s')) :
  insideCodeContainer s'
  = xorb (insideCodeContainer s) (Nat.odd (markerLines (splitLines text))).
Proof.
  destruct (mainLoop_fuel_enough (splitLines text) (length (splitLines text))
              (startLoop s)) as [cf Hcf]; [simpl; lia|].
  rewrite (parseMarkdown_unfold _ _ _ Htext Hcf) in Hparse.
  injection Hparse as _ <-. by rewrite (mainLoop_fence_parity _ _ _ _ Hcf).
Qed.

Lemma X11_witness :
  trim (lit "```" ++ [LF] ++ lit "a" ++ [LF] ++ lit "```" ++ [LF] ++ lit "x ``` y") <> []
  /\ markerLines (splitLines (lit "```" ++ [LF] ++ lit "a" ++ [LF] ++ lit "```"
                              ++ [LF] ++ lit "x ``` y")) = 3%nat
  /\ exists out s',
      parseMarkdown reset
        (VString (lit "```" ++ [LF] ++ lit "a" ++ [LF] ++ lit "```" ++ [LF] ++ lit "x ``` y"))
      = Ret (out, s')
      /\ insideCodeContainer s' = true.
Proof.
  split; [vm_compute; discriminate|]. split; [vm_compute; reflexivity|].
  destruct (parseMarkdown_ok reset
              (VString (lit "```" ++ [LF] ++ lit "a" ++ [LF] ++ lit "```" ++ [LF]
                        ++ lit "x ``` y"))) as (out & s' & Hparse).
  exists out, s'. split; [exact Hparse|].
  rewrite (X11_fence_parity reset s'
             (lit "```" ++ [LF] ++ lit "a" ++ [LF] ++ lit "```" ++ [LF] ++ lit "x ``` y")
             out); [vm_compute; reflexivity | | exact Hparse].
  vm_compute. discriminate.
Defined.

(** ** Splitting into raw lines *)

Ltac len := unfold str, char in *; cbn [length] in *; lia.

Lemma split_from_length (n : nat) :
  forall (s cur : str), (length s <= n)%nat ->
  length (split_from cur s) = S (countOccurrences [LF] s).
Proof.
  induction n as [|n IH]; intros s cur Hlen.
  - destruct s; [done | simpl in Hlen; len].
  - destruct s as [|c s']; [done|]. cbn [split_from countOccurrences startsWith].
    cbn [length] in Hlen.
    destruct (N.eqb_spec c LF) as [->|Hc].
    + cbn [length]. rewrite (IH s' []) by len. done.
    + rewrite (proj2 (N.eqb_neq LF c)) by done. cbn [andb Nat.add].
      destruct (N.eqb_spec c CR) as [->|Hcr]; [|apply IH; len].
      destruct s' as [|d s'']; [done|].
      destruct (N.eqb_spec d LF) as [->|Hd]; [|apply IH; len].
      cbn [length countOccurrences startsWith]. cbn [length] in Hlen.
      rewrite (IH s'' []) by len. by rewrite N.eqb_refl.
Qed.

Lemma not_elem_of_rev (c : char) (s : str) : c ∉ s -> c ∉ rev s.
Proof.
  intros H Hin. apply H. apply list_elem_of_In, in_rev. by apply list_elem_of_In.
Qed.

Lemma split_from_no_LF (n : nat) :
  forall (s cur : str), (length s <= n)%nat -> LF ∉ cur ->
  Forall (fun l => LF ∉ l) (split_from cur s).
Proof.
  induction n as [|n IH]; intros s cur Hlen Hcur.
  - destruct s; [|simpl in Hlen; len]. constructor; [by apply not_elem_of_rev | done].
  - destruct s as [|c s']; [constructor; [by apply not_elem_of_rev | done]|].
    cbn [split_from]. cbn [length] in Hlen.
    assert (Hnil : LF ∉ ([] : str)) by apply not_elem_of_nil.
    destruct (N.eqb_spec c LF) as [->|Hc].
    + constructor; [by apply not_elem_of_rev | apply IH; [len | done]].
    + assert (Hcons : LF ∉ c :: cur) by (apply not_elem_of_cons; split; [congruence | done]).
      destruct (N.eqb_spec c CR) as [->|Hcr]; [|apply IH; [len | done]].
      destruct s' as [|d s'']; [apply IH; [len | done]|].
      destruct (N.eqb_spec d LF) as [->|Hd]; [|apply IH; [len | done]].
      cbn [length] in Hlen.
      constructor; [by apply not_elem_of_rev | apply IH; [len | done]].
Qed.

(** X12 — [split] gives one raw line more than the text has line feeds, never
    an empty array, and no raw line holds a line feed. *)
Theorem X12_splitLines_lines (text : str) :
  length (splitLines text) = S (countOccurrences [LF] text)
  /\ splitLines text <> []
  /\ Forall (fun l => LF ∉ l) (splitLines text).
Proof.
  assert (Hlen : length (splitLines text) = S (countOccurrences [LF] text))
    by (by apply (split_from_length (length text))).
  split; [done|]. split.
  - intros H. by rewrite H in Hlen.
  - apply (split_from_no_LF (length text)); [done | apply not_elem_of_nil].
Qed.

Lemma joinLF_cons (l : str) (ls : list str) :
  ls <> [] -> joinLF (l :: ls) = l ++ LF :: joinLF ls.
Proof. by destruct ls. Qed.

Lemma split_from_not_nil (cur s : str) : split_from cur s <> [].
Proof.
  intros H. pose proof (split_from_length (length s) s cur (le_n _)) as Hlen.
  by rewrite H in Hlen.
Qed.

Lemma split_from_join (s : str) :
  forall cur, (forall a b, s <> a ++ CR :: LF :: b) ->
  joinLF (split_from cur s) = rev cur ++ s.
Proof.
  induction s as [|c s' IH]; intros cur Hno; [by rewrite app_nil_r|].
  assert (Hno' : forall a b, s' <> a ++ CR :: LF :: b).
  { intros a b ->. by apply (Hno (c :: a) b). }
  cbn [split_from].
  destruct (N.eqb_spec c LF) as [->|Hc].
  { rewrite joinLF_cons by apply split_from_not_nil. by rewrite (IH [] Hno'). }
  assert (Hpush : joinLF (split_from (c :: cur) s') = rev cur ++ c :: s').
  { rewrite (IH (c :: cur) Hno'). cbn [rev]. by rewrite <- app_assoc. }
  destruct (N.eqb_spec c CR) as [->|Hcr]; [|done].
  destruct s' as [|d s'']; [done|].
  destruct (N.eqb_spec d LF) as [->|Hd]; [|done].
  exfalso. by apply (Hno [] s'').
Qed.

(** X13 — For a text in which no carriage return is followed by a line feed,
    putting the raw lines back together with line feeds gives the text back:
    the split loses nothing but the CR of a CR LF pair. *)
Theorem X13_splitLines_round_trip (text : str)
    (Hno : forall a b, text <> a ++ CR :: LF :: b) :
  joinLF (splitLines text) = text.
Proof. exact (split_from_join text [] Hno). Qed.

Lemma X13_witness :
  (forall a b, [CR] ++ lit "> a" ++ [LF; LF] ++ lit "b" ++ [CR] <> a ++ CR :: LF :: b)
  /\ joinLF (splitLines ([CR] ++ lit "> a" ++ [LF; LF] ++ lit "b" ++ [CR]))
     = [CR] ++ lit "> a" ++ [LF; LF] ++ lit "b" ++ [CR].
Proof.
  assert (Hno : forall a b,
             [CR] ++ lit "> a" ++ [LF; LF] ++ lit "b" ++ [CR] <> a ++ CR :: LF :: b).
  { intros a b H. vm_compute in H.
    repeat (destruct a as [|? a]; [discriminate H|]; injection H as _ H).
    destruct a; discriminate H. }
  split; [exact Hno|].
  exact (X13_splitLines_round_trip _ Hno).
Defined.

(** ** The second pass on markup *)

Lemma repeat_nat_not_elem (c : char) (t : str) (n : nat) :
  c ∉ t -> c ∉ repeat_nat t n.
Proof.
  intros H. induction n as [|n IH]; cbn [repeat_nat]; [apply not_elem_of_nil|].
  rewrite elem_of_app. tauto.
Qed.

Lemma not_elem_lit (c : char) (s : str) :
  forallb (fun d => negb (c =? d)%N) s = true -> c ∉ s.
Proof.
  rewrite forallb_forall. intros H Hin.
  specialize (H c (proj1 (list_elem_of_In _ _) Hin)). by rewrite N.eqb_refl in H.
Qed.

(** X14 — The second pass hands back untouched every fragment that holds a
    [<] and neither [*] nor [_]; the tags the loop pushes for line breaks,
    fences without a language and blockquotes are such fragments. *)
Theorem X14_second_pass_keeps_markup (np : gmap nat bool) (pl : list str)
    (i : nat) (f : str)
    (Hi : pl !! i = Some f)
    (Hlt : indexOf f (lit "<") <> -1)
    (Hstar : STAR ∉ f) (Hunder : UNDERSCORE ∉ f) :
  secondPass np pl !! i = Some f
  /\ (forall t n, t ∈ [lit "<br />"; lit "<pre>"; lit "</pre>";
                       repeat_nat (lit "<blockquote>") (S n);
                       repeat_nat (lit "</blockquote>") (S n)] ->
        indexOf t (lit "<") <> -1 /\ (STAR ∉ t) /\ (UNDERSCORE ∉ t)).
Proof.
  split.
  - unfold secondPass. apply list_lookup_imap_Some. exists f. split; [done|].
    unfold paragraphStep.
    destruct (Z.eqb_spec (indexOf f (lit "<")) (-1)); [done|].
    rewrite andb_false_r. by rewrite inlineStep_absent.
  - intros t n Ht.
    assert (Hopen : forall c, c ∉ lit "<blockquote>" -> c ∉ repeat_nat (lit "<blockquote>") (S n))
      by (intros; by apply repeat_nat_not_elem).
    assert (Hclose : forall c, c ∉ lit "</blockquote>" -> c ∉ repeat_nat (lit "</blockquote>") (S n))
      by (intros; by apply repeat_nat_not_elem).
    repeat (apply elem_of_cons in Ht as [->|Ht]);
      [..|by apply elem_of_nil in Ht];
      (split; [by rewrite indexOf_startsWith|]);
      split; first [apply Hopen | apply Hclose | idtac]; by apply not_elem_lit.
Qed.

Lemma X14_witness :
  [lit "<blockquote>"; lit "a"] !! 0%nat = Some (lit "<blockquote>")
  /\ secondPass ∅ [lit "<blockquote>"; lit "a"] !! 0%nat = Some (lit "<blockquote>").
Proof.
  split; [reflexivity|].
  apply (X14_second_pass_keeps_markup ∅ [lit "<blockquote>"; lit "a"] 0 (lit "<blockquote>")).
  - reflexivity.
  - vm_compute. discriminate.
  - by apply not_elem_lit.
  - by apply not_elem_lit.
Defined.

(** ** How much [escapeHTMLChars] escapes *)

Lemma count_app (c : char) (a b : str) :
  countOccurrences [c] (a ++ b)
  = (countOccurrences [c] a + countOccurrences [c] b)%nat.
Proof.
  induction a as [|x a IH]; [done|].
  cbn [app countOccurrences startsWith]. rewrite IH. lia.
Qed.

Lemma count_zero (c : char) (s : str) : countOccurrences [c] s = 0%nat <-> c ∉ s.
Proof.
  induction s as [|x s IH]; cbn [countOccurrences startsWith].
  - split; [intros _; apply not_elem_of_nil | done].
  - rewrite not_elem_of_cons, <- IH.
    destruct (N.eqb_spec c x); cbn [andb]; split; try lia; intros [? ?]; (done || lia).
Qed.

Lemma getSubstitution_plain (m before after t : str) :
  DOLLAR ∉ t -> getSubstitution m before after t = t.
Proof.
  induction t as [|c t IH]; [done|]. intros [Hc Ht]%not_elem_of_cons.
  cbn [getSubstitution]. destruct (N.eqb_spec c 36); [done|]. by rewrite IH.
Qed.

(** The first occurrence of a code unit, when there is one. *)
Lemma findFirst_char (c : char) (s : str) :
  c ∈ s -> exists a b, s = a ++ c :: b /\ (c ∉ a) /\ findFirst [c] s = Some (a, b).
Proof.
  induction s as [|x s IH]; [by intros ?%elem_of_nil|].
  intros Hin. cbn [findFirst startsWith].
  destruct (N.eqb_spec c x) as [<-|Hne]; cbn [andb].
  - exists [], s. split; [done|]. split; [apply not_elem_of_nil | done].
  - apply elem_of_cons in Hin as [?|Hin]; [done|].
    destruct (IH Hin) as (a & b & -> & Ha & ->).
    exists (x :: a), b. split; [done|]. split; [|done].
    apply not_elem_of_cons. done.
Qed.

Lemma replace_char (c : char) (s r : str) :
  DOLLAR ∉ r -> c ∈ s ->
  exists a b, s = a ++ c :: b /\ (c ∉ a) /\ JS.replace s [c] r = a ++ r ++ b.
Proof.
  intros Hr Hin. destruct (findFirst_char c s Hin) as (a & b & -> & Ha & Hf).
  exists a, b. split; [done|]. split; [done|].
  unfold JS.replace. rewrite Hf. by rewrite getSubstitution_plain.
Qed.

Lemma count_replace_other (c d : char) (s r : str) :
  DOLLAR ∉ r -> d <> c -> d ∉ r ->
  countOccurrences [d] (JS.replace s [c] r) = countOccurrences [d] s.
Proof.
  intros Hr Hne Hd. destruct (decide (c ∈ s)) as [Hin|Hout].
  - destruct (replace_char c s r Hr Hin) as (a & b & -> & _ & ->).
    rewrite !count_app. cbn [countOccurrences startsWith].
    rewrite (proj2 (count_zero d r) Hd).
    destruct (N.eqb_spec d c); [done|]. cbn [andb]. lia.
  - by rewrite replace_absent.
Qed.

Lemma count_replace_same (c : char) (s r : str) :
  DOLLAR ∉ r -> c ∉ r ->
  countOccurrences [c] (JS.replace s [c] r) = pred (countOccurrences [c] s).
Proof.
  intros Hr Hc. destruct (decide (c ∈ s)) as [Hin|Hout].
  - destruct (replace_char c s r Hr Hin) as (a & b & -> & Ha & ->).
    rewrite !count_app. cbn [countOccurrences startsWith].
    rewrite (proj2 (count_zero c r) Hc), (proj2 (count_zero c a) Ha).
    rewrite N.eqb_refl. cbn [andb]. lia.
  - rewrite replace_absent by done. by rewrite (proj2 (count_zero c s) Hout).
Qed.

(** X15 — [escapeHTMLChars] takes away exactly one raw [<] and one raw [>],
    when there is one: its result still holds a raw [<] (a raw [>]) exactly
    when the text holds two or more. *)
Theorem X15_escape_leaves_all_but_first (text : str) :
  countOccurrences [LT] (escapeHTMLChars text) = pred (countOccurrences [LT] text)
  /\ countOccurrences [GT] (escapeHTMLChars text) = pred (countOccurrences [GT] text)
  /\ (LT ∈ escapeHTMLChars text <-> (2 <= countOccurrences [LT] text)%nat)
  /\ (GT ∈ escapeHTMLChars text <-> (2 <= countOccurrences [GT] text)%nat).
Proof.
  assert (Hlt : countOccurrences [LT] (escapeHTMLChars text)
                = pred (countOccurrences [LT] text)).
  { unfold escapeHTMLChars, SANITIZE_REPLACEMENTS. cbn [fold_left fst snd].
    change (lit ">") with [GT]. change (lit "<") with [LT]. change (lit "&") with [AMP].
    rewrite count_replace_other; [|by apply not_elem_lit | done | by apply not_elem_lit].
    rewrite count_replace_same; [|by apply not_elem_lit..].
    rewrite count_replace_other; [done | by apply not_elem_lit | done | by apply not_elem_lit]. }
  assert (Hgt : countOccurrences [GT] (escapeHTMLChars text)
                = pred (countOccurrences [GT] text)).
  { unfold escapeHTMLChars, SANITIZE_REPLACEMENTS. cbn [fold_left fst snd].
    change (lit ">") with [GT]. change (lit "<") with [LT]. change (lit "&") with [AMP].
    rewrite count_replace_same; [|by apply not_elem_lit..].
    rewrite count_replace_other; [|by apply not_elem_lit | done | by apply not_elem_lit].
    rewrite count_replace_other; [done | by apply not_elem_lit | done | by apply not_elem_lit]. }
  split; [done|]. split; [done|].
  split.
  - destruct (decide (LT ∈ escapeHTMLChars text)) as [Hin|Hout].
    + split; [intros _ | intros _; exact Hin].
      destruct (countOccurrences [LT] (escapeHTMLChars text)) eqn:E;
        [by apply count_zero in E | lia].
    + split; [intros Hin; by destruct Hout|]. apply count_zero in Hout. lia.
  - destruct (decide (GT ∈ escapeHTMLChars text)) as [Hin|Hout].
    + split; [intros _ | intros _; exact Hin].
      destruct (countOccurrences [GT] (escapeHTMLChars text)) eqn:E;
        [by apply count_zero in E | lia].
    + split; [intros Hin; by destruct Hout|]. apply count_zero in Hout. lia.
Qed.

(** ** Blank lines *)

Lemma trimEnd_blank (s : str) : forallb isWhiteSpace s = true -> trimEnd s = [].
Proof.
  intros H. unfold trimEnd. rewrite dropWhile_all; [done|]. by rewrite forallb_rev.
Qed.

(** X16 — A blank raw line met outside a fence: when a blockquote is open its
    close tags are pushed first, then [<br />]; the state stays as it is (the
    level included) and nothing is flagged. *)
Theorem X16_blank_line (raw_lines : list str) (c : loop_state) (raw : str)
    (Hline : raw_lines !! k c = Some raw)
    (Hfence : insideCodeContainer (state c) = false)
    (Hblank : forallb isWhiteSpace raw = true) :
  loopBody raw_lines c
  = Ret {| state := state c; not_a_paragraph := not_a_paragraph c;
           parsed_lines :=
             parsed_lines c
             ++ (if blockquoteLevel (state c) >? 0
                 then [repeat_nat (lit "</blockquote>")
                         (Z.to_nat (blockquoteLevel (state c)))]
                 else [])
             ++ [lit "<br />"];
           k := S (k c) |}.
Proof.
  unfold loopBody, lineAt. rewrite Hline. cbn [mbind res_bind].
  rewrite (trimEnd_blank _ Hblank).
  change (getBlockInfo [] 0) with (break, MZero). cbv beta iota.
  case_decide; [done|]. rewrite Hfence.
  unfold blockquoteStep. case_decide; [done|].
  destruct (Z.gtb_spec (blockquoteLevel (state c)) 0).
  - rewrite repeat_nonneg by lia. cbn [mbind res_bind parse].
    rewrite Nat.leb_refl. by rewrite <- app_assoc.
  - cbn [mbind res_bind parse]. by rewrite Nat.leb_refl.
Qed.

Lemma X16_witness :
  [lit "> a"; [32; 9]%N] !! 1%nat = Some [32; 9]%N
  /\ loopBody [lit "> a"; [32; 9]%N]
       {| state := set_blockquoteLevel reset 1; not_a_paragraph := ∅;
          parsed_lines := [lit "<blockquote>"; lit "a"]; k := 1 |}
     = Ret {| state := set_blockquoteLevel reset 1; not_a_paragraph := ∅;
              parsed_lines := [lit "<blockquote>"; lit "a"; lit "</blockquote>";
                               lit "<br />"];
              k := 2 |}.
Proof.
  split; [reflexivity|].
  rewrite (X16_blank_line [lit "> a"; [32; 9]%N]
             {| state := set_blockquoteLevel reset 1; not_a_paragraph := ∅;
                parsed_lines := [lit "<blockquote>"; lit "a"]; k := 1 |}
             [32; 9]%N); reflexivity.
Defined.

(** ** One span, one inline rule *)

Lemma lastOr_cons (prev : option char) (x : char) (a : str) :
  lastOr prev (x :: a) = lastOr (Some x) a.
Proof. unfold lastOr. rewrite last_cons. by destruct (last a). Qed.

Lemma lastOr_app (prev : option char) (a b : str) :
  lastOr prev (a ++ b) = lastOr (lastOr prev a) b.
Proof.
  revert prev. induction a as [|x a IH]; intros prev; [done|].
  cbn [app]. by rewrite !lastOr_cons.
Qed.

(** Scanning over text without the delimiter's first unit finds nothing and
    remembers the last unit passed. *)
Lemma scan_prefix_absent (c : char) (D a s : str) (prev : option char) :
  c ∉ a -> scan (c :: D) 0 prev (a ++ s) = scan (c :: D) 0 (lastOr prev a) s.
Proof.
  revert prev. induction a as [|x a IH]; intros prev Ha; [done|].
  apply not_elem_of_cons in Ha as [Hx Ha].
  cbn [app scan]. unfold exec_at. cbn [startsWith].
  destruct (N.eqb_spec c x); [done|]. rewrite andb_false_r.
  rewrite lastOr_cons. by apply IH.
Qed.

(** The units of a match are passed over. *)
Lemma scan_skip (D x s : str) (prev : option char) :
  scan D (length x) prev (x ++ s) = scan D 0 (lastOr prev x) s.
Proof.
  revert prev. induction x as [|y x IH]; intros prev; [done|].
  cbn [app length scan]. rewrite lastOr_cons. apply IH.
Qed.

Lemma lazy_group_unfold (D g_rev : str) (lastc : char) (rest : str) :
  lazy_group D g_rev lastc rest
  = if negb (lastc =? BACKSLASH)%N && startsWith D rest then Some (rev g_rev)
    else match rest with
         | [] => None
         | c :: rest' =>
             if isLineTerminator c then None
             else lazy_group D (c :: g_rev) c rest'
         end.
Proof. by destruct rest. Qed.

Lemma startsWith_head_ne (c x : char) (D t : str) :
  x <> c -> startsWith (c :: D) (x :: t) = false.
Proof. intros H. cbn [startsWith]. by destruct (N.eqb_spec c x). Qed.

Lemma startsWith_app (p t : str) : startsWith p (p ++ t) = true.
Proof. apply startsWith_prefix. by apply prefix_app_r. Qed.

(** The lazy group stops at the first closing delimiter: with none of the
    delimiter's first unit inside, that is the end of the group. *)
Lemma lazy_group_found (c : char) (Dl D g acc b : str) (lastc : char) :
  Dl = c :: D ->
  c ∉ g -> Forall (fun x => isLineTerminator x = false) g ->
  lastOr (Some lastc) g <> Some BACKSLASH ->
  lazy_group Dl acc lastc (g ++ Dl ++ b) = Some (rev acc ++ g).
Proof.
  intros HD. revert acc lastc.
  induction g as [|x g IH]; intros acc lastc Hc Hlt Hlast.
  - cbn [app]. rewrite app_nil_r, lazy_group_unfold, startsWith_app.
    destruct (N.eqb_spec lastc BACKSLASH) as [->|]; [by destruct Hlast | done].
  - apply not_elem_of_cons in Hc as [Hx Hc]. apply Forall_cons_1 in Hlt as [Hltx Hlt].
    rewrite lastOr_cons in Hlast.
    cbn [app]. rewrite lazy_group_unfold. rewrite HD at 1.
    rewrite startsWith_head_ne by done. rewrite andb_false_r, Hltx.
    rewrite (IH (x :: acc) x Hc Hlt Hlast). cbn [rev]. by rewrite <- app_assoc.
Qed.

Lemma exec_at_span (c : char) (Dl D g b : str) (prev : option char) :
  Dl = c :: D -> c ∉ g -> g <> [] ->
  Forall (fun x => isLineTerminator x = false) g ->
  prev <> Some BACKSLASH -> last g <> Some BACKSLASH ->
  exec_at Dl prev (Dl ++ g ++ Dl ++ b) = Some (Dl ++ g ++ Dl, g).
Proof.
  intros HD Hg Hne Hlt Hprev Hlast. unfold exec_at.
  rewrite startsWith_app, andb_true_r, drop_app_length.
  assert (Hnb : notAfterBackslash prev = true).
  { unfold notAfterBackslash. destruct prev as [p|]; [|done].
    destruct (N.eqb_spec p BACKSLASH) as [->|]; done. }
  rewrite Hnb. destruct g as [|x g']; [done|].
  apply Forall_cons_1 in Hlt as [Hltx Hlt]. apply not_elem_of_cons in Hg as [Hx Hg].
  cbn [app]. rewrite Hltx.
  rewrite (lazy_group_found c Dl D g' [x] b x); [done | done | done | done |].
  unfold lastOr. rewrite last_cons in Hlast. by destruct (last g').
Qed.

(** A text with exactly one span of the rule: one match, the span. *)
Lemma scan_one_span (c : char) (Dl D a g b : str) (prev : option char) :
  Dl = c :: D ->
  c ∉ a -> c ∉ g -> c ∉ b -> g <> [] ->
  Forall (fun x => isLineTerminator x = false) g ->
  lastOr prev a <> Some BACKSLASH -> last g <> Some BACKSLASH ->
  scan Dl 0 prev (a ++ Dl ++ g ++ Dl ++ b) = [(Dl ++ g ++ Dl, g)].
Proof.
  intros HD Ha Hg Hb Hne Hlt Hprev Hlast.
  rewrite HD at 1. rewrite scan_prefix_absent by done. rewrite <- HD.
  pose proof (exec_at_span c Dl D g b _ HD Hg Hne Hlt Hprev Hlast) as Hexec.
  assert (Hcons : Dl ++ g ++ Dl ++ b = c :: (D ++ g ++ Dl) ++ b).
  { rewrite HD at 1. cbn [app]. by rewrite <- !app_assoc. }
  rewrite Hcons in Hexec |- *. cbn [scan]. rewrite Hexec. cbn [fst].
  f_equal.
  replace (length (Dl ++ g ++ Dl) - 1)%nat with (length (D ++ g ++ Dl))
    by (rewrite !length_app, HD; cbn [length]; lia).
  rewrite scan_skip. rewrite HD at 1. by apply scan_absent.
Qed.

Lemma findFirst_unfold (pat s : str) :
  findFirst pat s
  = if startsWith pat s then Some ([], drop (length pat) s)
    else match s with
         | [] => None
         | c :: s' =>
             match findFirst pat s' with
             | Some (before, after) => Some (c :: before, after)
             | None => None
             end
         end.
Proof. by destruct s. Qed.

Lemma findFirst_after_absent (c : char) (pat D a b : str) :
  pat = c :: D -> c ∉ a -> findFirst pat (a ++ pat ++ b) = Some (a, b).
Proof.
  intros HD. induction a as [|x a IH]; intros Ha.
  - cbn [app]. by rewrite findFirst_unfold, startsWith_app, drop_app_length.
  - apply not_elem_of_cons in Ha as [Hx Ha]. cbn [app].
    rewrite findFirst_unfold. rewrite HD at 1.
    rewrite startsWith_head_ne by done. by rewrite (IH Ha).
Qed.

(** A code unit that is none of the reserved ones and in none of the entities
    does not come out of [escapeHTMLChars] unless it went in. *)
Lemma escape_absent (d : char) (g : str) :
  d <> AMP -> d <> LT -> d <> GT ->
  d ∉ lit "&amp;" -> d ∉ lit "&lt;" -> d ∉ lit "&gt;" ->
  d ∉ g -> d ∉ escapeHTMLChars g.
Proof.
  intros Hamp Hlt Hgt Heamp Helt Hegt Hg. apply count_zero. apply count_zero in Hg.
  unfold escapeHTMLChars, SANITIZE_REPLACEMENTS. cbn [fold_left fst snd].
  change (lit ">") with [GT]. change (lit "<") with [LT]. change (lit "&") with [AMP].
  rewrite !count_replace_other; try done; by apply not_elem_lit.
Qed.

Lemma wrapWithTag_absent (d : char) (tag g : str) :
  d <> AMP -> d <> LT -> d <> GT -> d <> 47%N ->
  d ∉ lit "&amp;" -> d ∉ lit "&lt;" -> d ∉ lit "&gt;" ->
  d ∉ tag -> d ∉ g -> d ∉ wrapWithTag tag g.
Proof.
  intros Hamp Hlt Hgt Hslash Heamp Helt Hegt Htag Hg. unfold wrapWithTag.
  pose proof (escape_absent d g Hamp Hlt Hgt Heamp Helt Hegt Hg) as He.
  change (lit "<") with [LT]. change (lit ">") with [GT].
  change (lit "</") with [LT; 47%N].
  rewrite !elem_of_app, !elem_of_cons, !elem_of_nil. tauto.
Qed.

Ltac plain_unit := first [done | by apply not_elem_lit].

(** One span and nothing else of the rule's delimiter: the rule rewrites the
    span and keeps the rest. *)
Lemma applyRule_one_span (r : inline_rule) (c : char) (D a g b : str) :
  original r = delimiter (matcher r) -> delimiter (matcher r) = c :: D ->
  DOLLAR ∉ tag r ->
  c ∉ a -> c ∉ g -> c ∉ b -> g <> [] ->
  Forall (fun x => isLineTerminator x = false) g ->
  last a <> Some BACKSLASH -> last g <> Some BACKSLASH -> DOLLAR ∉ g ->
  applyRule r (a ++ original r ++ g ++ original r ++ b)
  = a ++ wrapWithTag (tag r) g ++ b.
Proof.
  intros Ho HD Htag Ha Hg Hb Hne Hlt Hlasta Hlastg Hdollar.
  unfold applyRule, matchAll. rewrite Ho.
  rewrite (scan_one_span c _ D a g b None HD); try done;
    [|unfold lastOr; by destruct (last a)].
  cbn [fold_left fst snd]. unfold JS.replace.
  replace (a ++ delimiter (matcher r) ++ g ++ delimiter (matcher r) ++ b)
    with (a ++ (delimiter (matcher r) ++ g ++ delimiter (matcher r)) ++ b)
    by (by rewrite <- !app_assoc).
  rewrite (findFirst_after_absent c _ (D ++ g ++ delimiter (matcher r)));
    [|by rewrite HD at 1|done].
  rewrite getSubstitution_plain; [done|].
  apply wrapWithTag_absent; plain_unit.
Qed.

(** What the four rules of [INLINE] have in common. *)
Lemma INLINE_rule (r : inline_rule) :
  r ∈ INLINE ->
  original r = delimiter (matcher r)
  /\ (exists D, delimiter (matcher r) = delim_char (matcher r) :: D)
  /\ (delim_char (matcher r) = STAR \/ delim_char (matcher r) = UNDERSCORE)
  /\ (tag r = lit "strong" \/ tag r = lit "em").
Proof.
  unfold INLINE. intros Hr.
  repeat (apply elem_of_cons in Hr as [->|Hr]); [..|by apply elem_of_nil in Hr];
    (split; [done|]); (split; [by eexists|]); split; auto.
Qed.

(** X17 — Any one rule of [INLINE] on a fragment that holds one span of it and
    no other occurrence of its delimiter character: the span, delimiters
    included, is replaced by its text wrapped with [wrapWithTag] in the rule's
    tag, and the text before and after is kept.  The span text is not empty,
    has no line terminator and no [$], and neither it nor the text before it
    ends with a backslash. *)
Theorem X17_rule_rewrites_span (r : inline_rule) (a g b : str)
    (Hr : r ∈ INLINE)
    (Ha : delim_char (matcher r) ∉ a) (Hg : delim_char (matcher r) ∉ g)
    (Hb : delim_char (matcher r) ∉ b)
    (Hne : g <> [])
    (Hlt : Forall (fun x => isLineTerminator x = false) g)
    (Hlasta : last a <> Some BACKSLASH) (Hlastg : last g <> Some BACKSLASH)
    (Hdollar : DOLLAR ∉ g) :
  applyRule r (a ++ original r ++ g ++ original r ++ b)
  = a ++ wrapWithTag (tag r) g ++ b.
Proof.
  destruct (INLINE_rule r Hr) as (Ho & [D HD] & _ & Htag).
  apply (applyRule_one_span r (delim_char (matcher r)) D); try done.
  destruct Htag as [-> | ->]; by apply not_elem_lit.
Qed.

Lemma X17_witness :
  (UNDERSCORE ∉ lit "<p>a ")
  /\ applyRule {| original := lit "__";
                  matcher := {| delim_char := UNDERSCORE; delim_count := 2 |};
                  tag := lit "strong" |}
       (lit "<p>a " ++ lit "__" ++ lit "b < c" ++ lit "__" ++ lit " d</p>")
     = lit "<p>a " ++ lit "<strong>b &lt; c</strong>" ++ lit " d</p>".
Proof.
  split; [by apply not_elem_lit|].
  refine (X17_rule_rewrites_span
            {| original := lit "__";
               matcher := {| delim_char := UNDERSCORE; delim_count := 2 |};
               tag := lit "strong" |} (lit "<p>a ") (lit "b < c") (lit " d</p>")
            _ _ _ _ _ _ _ _ _);
    try (by apply not_elem_lit); try (vm_compute; discriminate).
  - unfold INLINE. set_solver.
  - vm_compute. repeat constructor.
Defined.

(** The two-unit delimiter finds nothing where the unit only stands alone. *)
Lemma scan_double_none (c : char) (a g b : str) (prev : option char) :
  c ∉ a -> c ∉ g -> c ∉ b -> g <> [] ->
  scan [c; c] 0 prev (a ++ [c] ++ g ++ [c] ++ b) = [].
Proof.
  intros Ha Hg Hb Hne. rewrite scan_prefix_absent by done.
  destruct g as [|x g']; [done|].
  pose proof Hg as Hg0. apply not_elem_of_cons in Hg0 as [Hx Hg'].
  assert (Hfirst : exec_at [c; c] (lastOr prev a) ([c] ++ (x :: g') ++ [c] ++ b) = None).
  { unfold exec_at. cbn [app startsWith].
    rewrite (proj2 (N.eqb_neq c x)) by done. by rewrite !andb_false_r. }
  assert (Hlast : exec_at [c; c] (lastOr (Some c) (x :: g')) ([c] ++ b) = None).
  { unfold exec_at. destruct b as [|y b']; cbn [app startsWith];
      [by rewrite !andb_false_r|].
    apply not_elem_of_cons in Hb as [Hy _].
    rewrite (proj2 (N.eqb_neq c y)) by done. by rewrite !andb_false_r. }
  change ([c] ++ (x :: g') ++ [c] ++ b) with (c :: ((x :: g') ++ [c] ++ b)) in *.
  cbn [scan]. rewrite Hfirst.
  rewrite (scan_prefix_absent c [c] (x :: g') _ _ Hg).
  change ([c] ++ b) with (c :: b) in *. cbn [scan].
  match goal with
  | |- context [exec_at ?D ?p ?t] =>
      replace (exec_at D p t) with (@None (str * str)) by (symmetry; exact Hlast)
  end.
  by apply scan_absent.
Qed.

Lemma applyRule_double_none (r : inline_rule) (c : char) (a g b : str) :
  delimiter (matcher r) = [c; c] ->
  c ∉ a -> c ∉ g -> c ∉ b -> g <> [] ->
  applyRule r (a ++ [c] ++ g ++ [c] ++ b) = a ++ [c] ++ g ++ [c] ++ b.
Proof.
  intros HD Ha Hg Hb Hne. unfold applyRule, matchAll.
  by rewrite HD, scan_double_none.
Qed.

Lemma span_out_absent (d : char) (tag a g b : str) :
  d = STAR \/ d = UNDERSCORE -> tag = lit "strong" \/ tag = lit "em" ->
  d ∉ a -> d ∉ g -> d ∉ b -> d ∉ a ++ wrapWithTag tag g ++ b.
Proof.
  intros Hd Htag Ha Hg Hb. rewrite !elem_of_app.
  assert (d ∉ wrapWithTag tag g); [|tauto].
  destruct Hd as [-> | ->], Htag as [-> | ->]; apply wrapWithTag_absent; plain_unit.
Qed.

Lemma span_in_absent (d : char) (D a g b : str) :
  d ∉ D -> d ∉ a -> d ∉ g -> d ∉ b -> d ∉ a ++ D ++ g ++ D ++ b.
Proof. intros. rewrite !elem_of_app. tauto. Qed.

(** X18 — The whole inline step on a fragment with one span of one rule and
    no other [*] or [_]: whichever of the four rules the span belongs to, the
    result is the span's text wrapped in that rule's tag between the text
    before and the text after; the other three rules change nothing, before
    or after.  The span text is not empty, has no line terminator and no [$],
    and neither it nor the text before it ends with a backslash.  (With a
    [$] in the span text the replacement string of [replace] is read as a
    pattern and the result differs.) *)
Theorem X18_inline_one_span (r : inline_rule) (a g b : str)
    (Hr : r ∈ INLINE)
    (Hsa : STAR ∉ a) (Hsg : STAR ∉ g) (Hsb : STAR ∉ b)
    (Hua : UNDERSCORE ∉ a) (Hug : UNDERSCORE ∉ g) (Hub : UNDERSCORE ∉ b)
    (Hne : g <> [])
    (Hlt : Forall (fun x => isLineTerminator x = false) g)
    (Hlasta : last a <> Some BACKSLASH) (Hlastg : last g <> Some BACKSLASH)
    (Hdollar : DOLLAR ∉ g) :
  inlineStep (a ++ original r ++ g ++ original r ++ b)
  = a ++ wrapWithTag (tag r) g ++ b.
Proof.
  assert (Hout : forall d tag, d = STAR \/ d = UNDERSCORE ->
                   tag = lit "strong" \/ tag = lit "em" ->
                   d ∉ a ++ wrapWithTag tag g ++ b).
  { intros d tag [-> | ->] Htag; apply span_out_absent; auto. }
  unfold inlineStep, INLINE in *. cbn [fold_left].
  repeat (apply elem_of_cons in Hr as [->|Hr]); [..|by apply elem_of_nil in Hr].
  - rewrite (applyRule_one_span _ STAR [STAR] a g b); try done; [|plain_unit].
    repeat (rewrite (applyRule_absent _ (a ++ wrapWithTag _ g ++ b));
            [|done|apply Hout; auto]).
    done.
  - rewrite (applyRule_absent _ (a ++ _)); [|done|apply span_in_absent; plain_unit].
    rewrite (applyRule_one_span _ UNDERSCORE [UNDERSCORE] a g b); try done; [|plain_unit].
    repeat (rewrite (applyRule_absent _ (a ++ wrapWithTag _ g ++ b));
            [|done|apply Hout; auto]).
    done.
  - cbn [original]. change (lit "*") with [STAR].
    rewrite (applyRule_double_none _ STAR a g b); try done.
    rewrite (applyRule_absent _ (a ++ _)); [|done|apply span_in_absent; plain_unit].
    change [STAR] with (original {| original := lit "*";
                                    matcher := {| delim_char := STAR; delim_count := 1 |};
                                    tag := lit "em" |}).
    rewrite (applyRule_one_span _ STAR [] a g b); try done; [|plain_unit].
    repeat (rewrite (applyRule_absent _ (a ++ wrapWithTag _ g ++ b));
            [|done|apply Hout; auto]).
    done.
  - cbn [original]. change (lit "_") with [UNDERSCORE].
    rewrite (applyRule_absent _ (a ++ _)); [|done|apply span_in_absent; plain_unit].
    rewrite (applyRule_double_none _ UNDERSCORE a g b); try done.
    rewrite (applyRule_absent _ (a ++ _)); [|done|apply span_in_absent; plain_unit].
    change [UNDERSCORE]
      with (original {| original := lit "_";
                        matcher := {| delim_char := UNDERSCORE; delim_count := 1 |};
                        tag := lit "em" |}).
    rewrite (applyRule_one_span _ UNDERSCORE [] a g b); try done; plain_unit.
Qed.

Lemma X18_witness :
  (STAR ∉ lit "<p>see ")
  /\ inlineStep (lit "<p>see " ++ lit "*" ++ lit "this" ++ lit "*" ++ lit "</p>")
     = lit "<p>see " ++ lit "<em>this</em>" ++ lit "</p>".
Proof.
  split; [by apply not_elem_lit|].
  refine (X18_inline_one_span
            {| original := lit "*"; matcher := {| delim_char := STAR; delim_count := 1 |};
               tag := lit "em" |} (lit "<p>see ") (lit "this") (lit "</p>")
            _ _ _ _ _ _ _ _ _ _ _ _);
    try (by apply not_elem_lit); try (vm_compute; discriminate).
  - unfold INLINE. set_solver.
  - vm_compute. repeat constructor.
Defined.

(** ** Escaped delimiters *)

Lemma scan_escaped (c : char) (D s : str) (prev : option char) :
  escapedOnly c prev s = true -> scan (c :: D) 0 prev s = [].
Proof.
  revert prev. induction s as [|d s IH]; intros prev; [done|].
  cbn [escapedOnly scan]. intros [Hd Hs]%andb_true_iff.
  assert (Hexec : exec_at (c :: D) prev (d :: s) = None).
  { unfold exec_at. cbn [startsWith].
    destruct (N.eqb_spec c d) as [->|Hne].
    - rewrite N.eqb_refl in Hd. cbn [negb orb] in Hd.
      apply negb_true_iff in Hd. by rewrite Hd.
    - by rewrite andb_false_r. }
  rewrite Hexec. by apply IH.
Qed.

(** X19 — A fragment in which every [*] and every [_] stands right after a
    backslash goes through the inline step untouched: such a delimiter opens
    no span, and the backslashes themselves stay in the text. *)
Theorem X19_escaped_delimiters_inert (f : str)
    (Hstar : escapedOnly STAR None f = true)
    (Hunder : escapedOnly UNDERSCORE None f = true) :
  inlineStep f = f
  /\ Forall (fun r => matchAll (matcher r) f = []) INLINE.
Proof.
  assert (Hall : Forall (fun r => matchAll (matcher r) f = []) INLINE).
  { unfold INLINE, matchAll, delimiter. cbn [matcher delim_char delim_count List.repeat].
    repeat constructor; by apply scan_escaped. }
  split; [|done].
  unfold inlineStep. revert Hall. generalize INLINE as rules.
  induction rules as [|r rules IH]; intros Hall; [done|].
  apply Forall_cons_1 in Hall as [Hr Hall]. cbn [fold_left].
  unfold applyRule at 2. rewrite Hr. cbn [fold_left]. by apply IH.
Qed.

Lemma X19_witness :
  escapedOnly STAR None ([BACKSLASH] ++ lit "*not em" ++ [BACKSLASH] ++ lit "*") = true
  /\ inlineStep ([BACKSLASH] ++ lit "*not em" ++ [BACKSLASH] ++ lit "*")
     = [BACKSLASH] ++ lit "*not em" ++ [BACKSLASH] ++ lit "*".
Proof.
  split; [vm_compute; reflexivity|].
  apply (X19_escaped_delimiters_inert
           ([BACKSLASH] ++ lit "*not em" ++ [BACKSLASH] ++ lit "*"));
    vm_compute; reflexivity.
Defined.

(** ** One-line documents *)

Lemma split_from_single (s : str) :
  forall cur, LF ∉ s -> split_from cur s = [rev cur ++ s].
Proof.
  induction s as [|c s' IH]; intros cur Hlf; [by rewrite app_nil_r|].
  apply not_elem_of_cons in Hlf as [Hc Hs'].
  assert (Hpush : split_from (c :: cur) s' = [rev cur ++ c :: s']).
  { rewrite (IH _ Hs'). cbn [rev]. by rewrite <- app_assoc. }
  cbn [split_from]. destruct (N.eqb_spec c LF); [done|].
  destruct (N.eqb_spec c CR); [|done].
  destruct s' as [|d s'']; [done|].
  apply not_elem_of_cons in Hs' as [Hd _]. by destruct (N.eqb_spec d LF).
Qed.

Lemma parse_one_line (s : State) (text : str) (c' : loop_state) :
  LF ∉ text -> trim text <> [] ->
  loopBody [text] (startLoop s) = Ret c' ->
  parseMarkdown s (VString text)
  = Ret (join (secondPass (not_a_paragraph c') (parsed_lines c'))
         ++ endOfDocument (state c'), state c').
Proof.
  intros Hlf Hne Hbody.
  assert (Hsplit : splitLines text = [text]) by (by apply (split_from_single text [])).
  apply parseMarkdown_unfold; [done|]. rewrite Hsplit. cbn [length mainLoop startLoop k].
  change {| state := s; not_a_paragraph := ∅; parsed_lines := []; k := 0 |}
    with (startLoop s).
  rewrite Hbody. cbn [mbind res_bind].
  destruct (loopBody_ok [text] (startLoop s)) as (c0 & Hc0 & Hk); [simpl; lia|].
  rewrite Hbody in Hc0. injection Hc0 as <-. by rewrite Hk.
Qed.

Lemma not_blank_of_class (raw : str) (b : block) (m : matched_t) :
  getBlockInfo (trimEnd raw) 0 = (b, m) -> b <> break -> trim raw <> [].
Proof.
  intros Hclass Hb Ht. apply trim_nil, trimEnd_blank in Ht.
  rewrite Ht in Hclass. by injection Hclass as <- _.
Qed.

(** A plain-text or heading line met outside a fence with no blockquote open:
    the turn pushes the handler's fragment and nothing else. *)
Lemma loopBody_handler (raw_lines : list str) (c : loop_state) (raw : str)
    (b : block) (m : matched_t) (t : str) :
  raw_lines !! k c = Some raw ->
  insideCodeContainer (state c) = false -> blockquoteLevel (state c) <= 0 ->
  getBlockInfo (trimEnd raw) 0 = (b, m) ->
  b <> code_container_marker -> b <> blockquote ->
  parse b raw_lines (k c) 0 (parsed_lines c) m = Ret (parsed_lines c, Some (t, k c)) ->
  loopBody raw_lines c
  = Ret {| state := state c; not_a_paragraph := not_a_paragraph c;
           parsed_lines := parsed_lines c ++ [t]; k := S (k c) |}.
Proof.
  intros Hline Hfence Hlevel Hclass Hb1 Hb2 Hparse.
  unfold loopBody, lineAt. rewrite Hline. cbn [mbind res_bind]. rewrite Hclass.
  case_decide; [done|]. rewrite Hfence. unfold blockquoteStep.
  case_decide; [done|]. destruct (Z.gtb_spec (blockquoteLevel (state c)) 0); [lia|].
  cbn [mbind res_bind]. rewrite Hparse. cbn [mbind res_bind].
  by rewrite Nat.leb_refl.
Qed.

Lemma elem_of_dropWhile (p : char -> bool) (x : char) (s : str) :
  x ∈ dropWhile p s -> x ∈ s.
Proof.
  induction s as [|c s IH]; [done|]. cbn [dropWhile].
  destruct (p c); [|done]. intros H. right. by apply IH.
Qed.

Lemma elem_of_trim (x : char) (s : str) : x ∈ trim s -> x ∈ s.
Proof.
  unfold trim, trimEnd, trimStart. intros H.
  apply list_elem_of_In, in_rev, list_elem_of_In, elem_of_dropWhile in H.
  apply list_elem_of_In, in_rev, list_elem_of_In in H.
  by apply elem_of_dropWhile in H.
Qed.

(** X20 — A one-line document that is plain text without [<], [*] and [_],
    parsed with no fence and no blockquote open, is the paragraph of that
    line: the whole raw line, trailing white space included, escaped and
    wrapped by [wrapWithTag] in [p]; the state is left as found. *)
Theorem X20_plain_paragraph (s : State) (text : str)
    (Hlf : LF ∉ text)
    (Hclass : getBlockInfo (trimEnd text) 0 = (plaintext, MZero))
    (Hfence : insideCodeContainer s = false) (Hlevel : blockquoteLevel s <= 0)
    (Hlt : LT ∉ text) (Hstar : STAR ∉ text) (Hunder : UNDERSCORE ∉ text) :
  parseMarkdown s (VString text) = Ret (wrapWithTag (lit "p") text, s).
Proof.
  assert (Hbody : loopBody [text] (startLoop s)
                  = Ret {| state := s; not_a_paragraph := ∅;
                           parsed_lines := [text]; k := 1 |}).
  { apply (loopBody_handler [text] (startLoop s) text plaintext MZero text); try done. }
  rewrite (parse_one_line s text _ Hlf (not_blank_of_class _ _ _ Hclass ltac:(done)) Hbody).
  cbn [state not_a_paragraph parsed_lines]. unfold secondPass, endOfDocument.
  cbn [imap]. unfold paragraphStep, isNotAParagraph. rewrite lookup_empty.
  cbn [default negb andb].
  change (lit "<") with [LT]. rewrite (proj2 (indexOf_absent LT text) Hlt).
  cbn [Z.eqb Pos.eqb]. rewrite inlineStep_absent;
    [|apply wrapWithTag_absent; plain_unit..].
  destruct (Z.gtb_spec (blockquoteLevel s) 0); [lia|].
  unfold join. cbn [concat]. by rewrite !app_nil_r.
Qed.

Lemma X20_witness :
  (LF ∉ lit "Tom & Jerry > all  ")
  /\ parseMarkdown reset (VString (lit "Tom & Jerry > all  "))
     = Ret (lit "<p>Tom &amp; Jerry &gt; all  </p>", reset).
Proof.
  split; [by apply not_elem_lit|].
  rewrite (X20_plain_paragraph reset (lit "Tom & Jerry > all  "));
    try (by apply not_elem_lit); try done.
Defined.

(** X21 — A one-line document that is an ATX heading without [*] and [_],
    parsed with no fence and no blockquote open, is the heading alone: the
    text after the [#] run, trimmed, escaped and wrapped in [h] and the level;
    no paragraph is put around it and the state is left as found. *)
Theorem X21_atx_document (s : State) (text m : str)
    (Hlf : LF ∉ text)
    (Hclass : getBlockInfo (trimEnd text) 0 = (atx_heading, MString m))
    (Hfence : insideCodeContainer s = false) (Hlevel : blockquoteLevel s <= 0)
    (Hstar : STAR ∉ text) (Hunder : UNDERSCORE ∉ text) :
  (1 <= length (trim m) <= 6)%nat
  /\ parseMarkdown s (VString text)
     = Ret (wrapWithTag (lit "h" ++ [N.of_nat (48 + length (trim m))])
              (trim (drop (length m) text)), s).
Proof.
  destruct (atx_level _ _ _ Hclass) as (Hn & _).
  split; [done|].
  pose proof (parse_atx [text] 0 0 [] text m eq_refl Hclass) as Hparse.
  cbn [Nat.add] in Hparse.
  assert (Hbody : loopBody [text] (startLoop s)
            = Ret {| state := s; not_a_paragraph := ∅;
                     parsed_lines :=
                       [wrapWithTag (lit "h" ++ [N.of_nat (48 + length (trim m))])
                          (trim (drop (length m) text))];
                     k := 1 |}).
  { by apply (loopBody_handler [text] (startLoop s) text atx_heading (MString m)). }
  rewrite (parse_one_line s text _ Hlf (not_blank_of_class _ _ _ Hclass ltac:(done)) Hbody).
  cbn [state not_a_paragraph parsed_lines]. unfold secondPass, endOfDocument.
  cbn [imap]. unfold paragraphStep. rewrite wrapWithTag_has_lt.
  change (0 =? -1) with false. rewrite andb_false_r.
  assert (Hsub : forall x, x ∉ text -> x ∉ trim (drop (length m) text)).
  { intros x Hx Hin. apply Hx. apply elem_of_trim in Hin.
    by apply (subseteq_drop (length m) text). }
  assert (Htag : forall x, x = STAR \/ x = UNDERSCORE ->
                   x ∉ lit "h" ++ [N.of_nat (48 + length (trim m))]).
  { intros x Hx. destruct (length (trim m)) as [|[|[|[|[|[|[|n]]]]]]]; try lia;
      destruct Hx as [-> | ->]; by apply not_elem_lit. }
  rewrite inlineStep_absent;
    [|apply wrapWithTag_absent; try plain_unit; auto..].
  destruct (Z.gtb_spec (blockquoteLevel s) 0); [lia|].
  unfold join. cbn [concat]. by rewrite !app_nil_r.
Qed.

Lemma X21_witness :
  (LF ∉ lit "# Title")
  /\ parseMarkdown reset (VString (lit "# Title")) = Ret (lit "<h1>Title</h1>", reset).
Proof.
  split; [by apply not_elem_lit|].
  destruct (X21_atx_document reset (lit "# Title") (lit "#")) as [_ ->];
    try (by apply not_elem_lit); try done.
Defined.

(** ** Fence markers *)

(** X22 — The turn for a fence-marker line.  Opening a fence pushes [<pre>]
    when nothing but white space follows the first three units of the trimmed
    line, and otherwise the [pre] tag whose class is [lang-] followed by all
    that follows them, unescaped; closing a fence pushes
    [</pre>] and drops whatever else the line holds.  Nothing else changes
    but the fence flag. *)
Theorem X22_fence_marker_turn (raw_lines : list str) (c : loop_state) (raw : str)
    (Hline : raw_lines !! k c = Some raw)
    (Hmark : isMarkerLine raw = true) :
  let language := substring (trimEnd raw) 3 in
  loopBody raw_lines c
  = Ret {| state := set_insideCodeContainer (state c)
                      (negb (insideCodeContainer (state c)));
           not_a_paragraph := not_a_paragraph c;
           parsed_lines :=
             parsed_lines c
             ++ [if insideCodeContainer (state c) then lit "</pre>"
                 else if forallb isWhiteSpace language then lit "<pre>"
                 else lit "<pre class=" ++ [DQUOTE] ++ lit "lang-" ++ language
                      ++ [DQUOTE] ++ lit ">"];
           k := S (k c) |}.
Proof.
  intros language. unfold isMarkerLine in Hmark. apply bool_decide_eq_true in Hmark.
  unfold loopBody, lineAt. rewrite Hline. cbn [mbind res_bind].
  destruct (getBlockInfo (trimEnd raw) 0) as [b m]. cbn [fst] in Hmark. subst b.
  case_decide; [|done]. cbn [insideCodeContainer set_insideCodeContainer].
  destruct (insideCodeContainer (state c)); cbn [negb]; [done|].
  unfold OPEN_PRE. fold language.
  destruct (forallb isWhiteSpace language) eqn:E.
  - by rewrite (proj2 (isEmpty_true _) E).
  - by rewrite (isEmpty_false _ E).
Qed.

Lemma X22_witness :
  isMarkerLine (lit "```js  ") = true
  /\ loopBody [lit "```js  "] (startLoop reset)
     = Ret {| state := set_insideCodeContainer reset true; not_a_paragraph := ∅;
              parsed_lines := [lit "<pre class=" ++ [DQUOTE] ++ lit "lang-js"
                               ++ [DQUOTE] ++ lit ">"];
              k := 1 |}.
Proof.
  split; [vm_compute; reflexivity|].
  rewrite (X22_fence_marker_turn [lit "```js  "] (startLoop reset) (lit "```js  "));
    vm_compute; reflexivity.
Defined.

(** ** A quoted paragraph *)

(** X23 — A one-line document that is a blockquote line holding plain text
    (no [<] past the prefix, no [*], no [_]), parsed from a state with no
    fence open and level 0: the output is the open tags, one per leading [>],
    the paragraph of the text past the matched prefix, and as many close
    tags.  The state left behind still has the level of the line: the parse
    closes the tags but does not put the level back to 0. *)
Theorem X23_quoted_paragraph (s : State) (text m : str)
    (Hlf : LF ∉ text)
    (Hclass : getBlockInfo (trimEnd text) 0 = (blockquote, MString m))
    (Hrest : getBlockInfo (trimEnd text) (length m) = (plaintext, MZero))
    (Hfence : insideCodeContainer s = false) (Hlevel : blockquoteLevel s = 0)
    (Hlt : LT ∉ drop (length m) text)
    (Hstar : STAR ∉ text) (Hunder : UNDERSCORE ∉ text) :
  let depth := quoteDepth (trimEnd text) in
  1 <= depth
  /\ parseMarkdown s (VString text)
     = Ret (repeat_nat (lit "<blockquote>") (Z.to_nat depth)
            ++ wrapWithTag (lit "p") (drop (length m) text)
            ++ repeat_nat (lit "</blockquote>") (Z.to_nat depth),
            set_blockquoteLevel s depth).
Proof.
  intros depth.
  destruct (blockquoteStep_depth s [] _ _ Hclass) as (Hd & pl1 & Hstep & _ & Hopen & _).
  fold depth in Hd, Hstep, Hopen. split; [done|].
  rewrite Hlevel in Hopen. rewrite Hopen in Hstep by lia. rewrite Z.sub_0_r in Hstep.
  set (tags := repeat_nat (lit "<blockquote>") (Z.to_nat depth)) in *.
  assert (Hbody : loopBody [text] (startLoop s)
            = Ret {| state := set_blockquoteLevel s depth; not_a_paragraph := ∅;
                     parsed_lines := [tags; drop (length m) text]; k := 1 |}).
  { unfold loopBody, lineAt. cbn [startLoop k state parsed_lines not_a_paragraph].
    cbn [lookup list_lookup mbind res_bind]. rewrite Hclass.
    case_decide; [done|]. rewrite Hfence, Hstep. cbn [mbind res_bind app].
    rewrite Hrest. cbn [parse lineAt lookup list_lookup mbind res_bind].
    by rewrite Nat.leb_refl. }
  rewrite (parse_one_line s text _ Hlf (not_blank_of_class _ _ _ Hclass ltac:(done)) Hbody).
  cbn [state not_a_paragraph parsed_lines]. unfold secondPass, endOfDocument.
  cbn [imap blockquoteLevel set_blockquoteLevel compose].
  destruct (Z.gtb_spec depth 0); [|lia].
  assert (Htags : indexOf tags (lit "<") = 0).
  { unfold tags. destruct (Z.to_nat depth) eqn:E; [lia|]. by apply indexOf_startsWith. }
  unfold paragraphStep, isNotAParagraph. rewrite !lookup_empty. cbn [default negb andb].
  rewrite Htags. change (0 =? -1) with false. cbv iota.
  change (lit "<") with [LT]. rewrite (proj2 (indexOf_absent LT _) Hlt).
  change (-1 =? -1) with true. cbv iota.
  assert (Hsub : forall x, x ∉ text -> x ∉ drop (length m) text).
  { intros x Hx Hin. apply Hx. by apply (subseteq_drop (length m) text). }
  rewrite (inlineStep_absent tags); [|unfold tags; apply repeat_nat_not_elem; plain_unit..].
  rewrite inlineStep_absent; [|apply wrapWithTag_absent; try plain_unit; auto..].
  unfold join. cbn [concat]. by rewrite !app_nil_r, <- !app_assoc.
Qed.

Lemma X23_witness :
  (LF ∉ lit ">> nested & quoted")
  /\ parseMarkdown reset (VString (lit ">> nested & quoted"))
     = Ret (lit "<blockquote><blockquote><p>nested &amp; quoted</p></blockquote></blockquote>",
            set_blockquoteLevel reset 2).
Proof.
  split; [by apply not_elem_lit|].
  destruct (X23_quoted_paragraph reset (lit ">> nested & quoted") (lit ">> ")) as [_ ->];
    try (by apply not_elem_lit); try done.
Defined.

(** ** What gets flagged *)

(** A handler leaves every fragment but the last as it is. *)
Lemma parse_lookup (b : block) (raw_lines : list str) (i pos : nat)
    (pl : list str) (m : matched_t) (pl2 : list str) (r : option (str * nat)) (j : nat) :
  parse b raw_lines i pos pl m = Ret (pl2, r) ->
  (S j < length pl)%nat -> pl2 !! j = pl !! j.
Proof.
  intros Hparse Hj. revert Hparse. destruct b; cbn [parse].
  - by intros [= <- <-].
  - by intros [= <- <-].
  - by intros [= <- <-].
  - destruct m as [t|]; [|done]. cbn [asString mbind res_bind].
    destruct (lineAt raw_lines i); cbn [mbind res_bind]; [|done..]. by intros [= <- <-].
  - destruct m as [t|]; [|done]. cbn [asString mbind res_bind].
    destruct (0 <? length pl)%nat.
    + destruct (pl !! _); [|done]. intros [= <- <-].
      apply list_lookup_insert_ne. lia.
    + by intros [= <- <-].
  - destruct (lineAt raw_lines i); cbn [mbind res_bind]; [|done..]. by intros [= <- <-].
Qed.

Lemma loopBody_flagsOk (raw_lines : list str) (c c' : loop_state) :
  flagsOk raw_lines c -> (k c < length raw_lines)%nat ->
  loopBody raw_lines c = Ret c' -> flagsOk raw_lines c'.
Proof.
  intros Hok Hk Hbody.
  destruct (lookup_lt_is_Some_2 raw_lines (k c) Hk) as [raw Hline].
  assert (Hlt : forall i b, not_a_paragraph c !! i = Some b ->
                  (i < length (parsed_lines c))%nat).
  { intros i b Hi. destruct (Hok i b Hi) as (_ & (r & _ & Hr) & _).
    by apply lookup_lt_Some in Hr. }
  destruct (loopBody_cases _ _ _ _ Hline Hbody)
    as [(Hb & ->) | [(Hb & Hin & ->) | (Hb & Hin & s1 & pl1 & off & b1 & m1 & pl2 & r
                                         & Hbq & Hparse & ->)]];
    intros i b Hi; cbn [not_a_paragraph parsed_lines state] in *.
  - pose proof (Hlt i b Hi) as Hil. destruct (Hok i b Hi) as (Hb1 & (r & Hr & Hfrag) & _).
    split; [done|]. split.
    + exists r. split; [done|]. by rewrite lookup_app_l.
    + rewrite length_app. cbn [length]. len.
  - destruct (decide (i = length (parsed_lines c))) as [->|Hne].
    + rewrite lookup_insert_eq in Hi. injection Hi as <-. split; [done|]. split; [|done].
      exists raw. split; [by eapply list_elem_of_lookup_2|].
      by rewrite lookup_app_r, Nat.sub_diag.
    + rewrite lookup_insert_ne in Hi by done.
      pose proof (Hlt i b Hi) as Hil. destruct (Hok i b Hi) as (Hb1 & (r & Hr & Hfrag) & _).
      split; [done|]. split; [|done].
      exists r. split; [done|]. by rewrite lookup_app_l.
  - pose proof (Hlt i b Hi) as Hil.
    destruct (Hok i b Hi) as (Hb1 & (r0 & Hr & Hfrag) & Hlast).
    assert (Hnotlast : (S i < length (parsed_lines c))%nat).
    { destruct (decide (S i = length (parsed_lines c))) as [He|]; [|len].
      specialize (Hlast He). congruence. }
    pose proof (parse_length _ _ _ _ _ _ _ _ Hparse) as Hlen2.
    apply blockquoteStep_frame in Hbq as (Hs1 & Hpl1 & _).
    assert (Hlen1 : (length (parsed_lines c) <= length pl1)%nat).
    { destruct Hpl1 as [-> | [t ->]]; [done|]. rewrite length_app. len. }
    assert (Hpl1i : pl1 !! i = parsed_lines c !! i).
    { destruct Hpl1 as [-> | [t ->]]; [done|]. by rewrite lookup_app_l. }
    split; [done|]. split.
    + exists r0. split; [done|].
      assert (H2 : pl2 !! i = pl1 !! i)
        by (apply (parse_lookup _ _ _ _ _ _ _ _ i Hparse); len).
      rewrite lookup_app_l by len. exact (eq_trans H2 (eq_trans Hpl1i Hfrag)).
    + rewrite length_app. len.
Qed.

(** X24 — Whatever the document, an index ends up in [not_a_paragraph] only
    for a fragment pushed for a raw line inside a fence: the fragment at a
    flagged index is some raw line of the document, escaped, with a line feed
    after it, as it was pushed. *)
Theorem X24_only_fence_interior_flagged (s : State) (text : str) :
  exists cf,
    mainLoop (length (splitLines text)) (splitLines text) (startLoop s) = Ret cf
    /\ forall i, isNotAParagraph (not_a_paragraph cf) i = true ->
         exists raw, raw ∈ splitLines text
           /\ parsed_lines cf !! i = Some (escapeHTMLChars raw ++ [LF]).
Proof.
  destruct (mainLoop_fuel_enough (splitLines text) (length (splitLines text))
              (startLoop s)) as [cf Hcf]; [simpl; lia|].
  exists cf. split; [done|].
  assert (Hok : flagsOk (splitLines text) cf).
  { refine (mainLoop_invariant (splitLines text) (flagsOk (splitLines text)) _ _ _ _ _ Hcf).
    - intros c c' H Hk Hbody. by eapply loopBody_flagsOk.
    - intros i b Hi. cbn [startLoop not_a_paragraph] in Hi. by rewrite lookup_empty in Hi. }
  intros i Hi. unfold isNotAParagraph in Hi.
  destruct (not_a_paragraph cf !! i) as [b|] eqn:E; [|done].
  by destruct (Hok i b E) as (_ & Hfrag & _).
Qed.

(** ** Setext underlines *)

Lemma takeWhile_run (c : char) (n : nat) (ws : str) :
  isWhiteSpace c = false -> forallb isWhiteSpace ws = true ->
  takeWhile (isChar c) (replicate n c ++ ws) = replicate n c
  /\ dropWhile (isChar c) (replicate n c ++ ws) = ws.
Proof.
  intros Hc Hws. induction n as [|n [IH1 IH2]].
  - cbn [replicate app]. destruct ws as [|w ws']; [done|].
    cbn [forallb] in Hws. apply andb_true_iff in Hws as [Hw _].
    cbn [takeWhile dropWhile]. unfold isChar.
    destruct (N.eqb_spec c w) as [->|]; [congruence | done].
  - cbn [replicate app takeWhile dropWhile]. unfold isChar at 1 3.
    rewrite N.eqb_refl. by rewrite IH1, IH2.
Qed.

Lemma match_underline_run (c : char) (n : nat) (ws : str) :
  isWhiteSpace c = false -> forallb isWhiteSpace ws = true ->
  match_underline c (replicate (S n) c ++ ws) = Some (replicate (S n) c ++ ws).
Proof.
  intros Hc Hws. unfold match_underline.
  destruct (takeWhile_run c (S n) ws Hc Hws) as [-> ->]. by rewrite Hws.
Qed.

Lemma match_underline_shape (c : char) (s m : str) :
  match_underline c s = Some m ->
  exists n ws, s = replicate (S n) c ++ ws /\ forallb isWhiteSpace ws = true.
Proof.
  unfold match_underline. pose proof (takeWhile_isChar c s) as Hrun.
  destruct (takeWhile (isChar c) s) as [|x run] eqn:E; [done|].
  destruct (forallb isWhiteSpace (dropWhile (isChar c) s)) eqn:Hws; [|done].
  intros _. destruct (length (x :: run)) as [|n] eqn:El; [done|].
  exists n, (dropWhile (isChar c) s). split; [|done].
  rewrite <- Hrun, <- E. symmetry. apply takeWhile_dropWhile.
Qed.

(** X25 — A remainder is a setext underline exactly when it is a run of one
    or more [=], or of one or more [-], followed by nothing but white space.
    In particular a row of dashes is always an underline: the earlier
    fragment becomes an [h2]. *)
Theorem X25_setext_iff (line : str) (start_pos : nat) :
  (getBlockInfo line start_pos).1 = setext_heading
  <-> exists c n ws, (c = EQUALS \/ c = MINUS)
        /\ substring line start_pos = replicate (S n) c ++ ws
        /\ forallb isWhiteSpace ws = true.
Proof.
  unfold getBlockInfo. generalize (substring line start_pos) as s. intros s. split.
  - destruct (isEmpty s); [done|]. cbn [firstMatch BLOCK_MATCHERS fst].
    destruct (match_code_marker s); [done|]. destruct (match_atx s); [done|].
    unfold match_setext.
    destruct (match_underline EQUALS s) as [m|] eqn:Heq.
    + intros _. apply match_underline_shape in Heq as (n & ws & Hs & Hws).
      exists EQUALS, n, ws. auto.
    + destruct (match_underline MINUS s) as [m|] eqn:Hmi.
      * intros _. apply match_underline_shape in Hmi as (n & ws & Hs & Hws).
        exists MINUS, n, ws. auto.
      * by destruct (match_blockquote s).
  - intros (c & n & ws & Hc & -> & Hws).
    assert (Hcws : isWhiteSpace c = false) by (by destruct Hc as [-> | ->]).
    assert (Htick : 96%N ∉ replicate (S n) c ++ ws).
    { rewrite elem_of_app. intros [Hin | Hin].
      - apply elem_of_replicate_inv in Hin. by destruct Hc as [-> | ->].
      - rewrite forallb_forall in Hws.
        specialize (Hws _ (proj1 (list_elem_of_In _ _) Hin)). done. }
    assert (He : isEmpty (replicate (S n) c ++ ws) = false).
    { apply isEmpty_false. apply (not_blank_elem c); [|done].
      rewrite elem_of_app. left. cbn [replicate]. left. }
    rewrite He. cbn [firstMatch BLOCK_MATCHERS].
    assert (Hcode : match_code_marker (replicate (S n) c ++ ws) = None).
    { unfold match_code_marker.
      destruct (Z.eqb_spec (indexOf (replicate (S n) c ++ ws) (lit "```")) (-1)) as [|Hne];
        [done|].
      by apply (indexOf_from_elem 96%N (lit "``")) in Hne. }
    rewrite Hcode.
    assert (Hatx : match_atx (replicate (S n) c ++ ws) = None).
    { unfold match_atx. cbn [replicate app dropWhile takeWhile]. rewrite Hcws.
      cbn [takeWhile]. unfold isChar at 1.
      destruct (N.eqb_spec HASH c) as [<-|]; [by destruct Hc | done]. }
    rewrite Hatx. unfold match_setext.
    destruct Hc as [-> | ->].
    + by rewrite match_underline_run.
    + assert (Hnoeq : match_underline EQUALS (replicate (S n) MINUS ++ ws) = None) by done.
      rewrite Hnoeq. by rewrite match_underline_run.
Qed.

End Properties.
